(** * Presence server of [online-and-offline-indicator/src/index.ts]

    A shallow embedding of the WebSocket presence registry: the array
    [userSocket], the ["connection"], ["close"] and ["pong"] listeners, the
    heartbeat timer, the staleness timer, the inactive-user reconciler and
    [broadcastUserStatus].

    JavaScript objects are shared by reference.  The socket objects live in a
    store ([sockets]) and the registry holds references into it, so that a
    listener registered on a socket that has left the registry still sees and
    changes the same object.  An [async] function runs up to its first
    [await], where it is suspended as a [Task]; it is resumed by a [Settle]
    event that carries the outcome of the awaited database call. *)

From Stdlib Require Import ZArith String Ascii Lia.
From stdpp Require Import base decidable option list strings.

Local Open Scope string_scope.
Local Open Scope list_scope.

(** ** Data model *)

(** [WebSocket.readyState]: the four constants of the [ws] transport. *)
Inductive ReadyState := CONNECTING | OPEN | CLOSING | CLOSED.

Global Instance ReadyState_eq_dec : EqDecision ReadyState.
Proof. solve_decision. Defined.

(** [interface ExtWebSocket extends WebSocket { userId?: string; isAlive?: boolean }].
    The two listeners of a socket are part of the object: [onClose] holds the
    [userId] captured by the closure passed to [ws.on("close", ...)], and
    [onPong] tells whether the ["pong"] listener is registered. *)
Record ExtWebSocket := mkExtWebSocket {
  userId : option string;
  isAlive : option bool;
  readyState : ReadyState;
  onClose : option string;
  onPong : bool
}.

(** The value of a path that [userSchema] declares as [String] without
    [required]: a document may lack it ([undefined]), hold [null], or hold a
    string. *)
Inductive Field := Undefined | Null | Text (s : string).

Global Instance Field_eq_dec : EqDecision Field.
Proof. solve_decision. Defined.

(** A document of the [User] collection; [_id] stands for its string form
    ([user._id.toString()]), [lastLogin] is in milliseconds.  Every document
    has an [_id], and [lastLogin] is written by every call that creates or
    updates one; [username] and [email] are whatever the request body held. *)
Record User := mkUser {
  _id : string;
  username : Field;
  email : Field;
  lastLogin : Z
}.

(** JSON texts, as [JSON.stringify] writes them. *)
Local Unset Elimination Schemes.
Inductive JsValue :=
| JNull
| JBool (b : bool)
| JString (s : string)
| JArray (items : list JsValue)
| JObject (fields : list (string * JsValue)).
Local Set Elimination Schemes.

(** An [async] call parked at an [await]. *)
Inductive Task :=
| AwaitFindByIdAndUpdate (userId : string) (date : Z)
    (* updateUserLastLogin, at User.findByIdAndUpdate *)
| AwaitUserFind (onlineUserIds : list string)
    (* broadcastUserStatus, at User.find({}, "_id username email") *)
| AwaitInactiveFind (cutoff : Z)
    (* deleteInactiveUsers, at User.find({ lastLogin: { $lt } }) *)
| AwaitDeleteMany (cutoff : Z).
    (* deleteInactiveUsers, at User.deleteMany({ lastLogin: { $lt } }) *)

(** What the server does to the outside world. *)
Inductive Effect :=
| Terminate (ws : nat)               (* ws.terminate() *)
| Ping (ws : nat)                    (* ws.ping() *)
| Send (ws : nat) (data : JsValue)   (* ws.send(JSON.stringify(data)) *)
| ConsoleError (msg : string).       (* console.error(msg, error) *)

Record Server := mkServer {
  sockets : list ExtWebSocket;   (* every socket object accepted so far, by reference *)
  userSocket : list nat;         (* const userSocket: ExtWebSocket[] *)
  users : list User;             (* the User collection *)
  tasks : list Task;             (* suspended async calls, oldest first *)
  effects : list Effect          (* oldest first *)
}.

Definition initial (directory : list User) : Server :=
  mkServer [] [] directory [] [].

(** ** Field updates *)

Definition with_sockets (h : list ExtWebSocket) (st : Server) : Server :=
  mkServer h (userSocket st) (users st) (tasks st) (effects st).
Definition with_userSocket (reg : list nat) (st : Server) : Server :=
  mkServer (sockets st) reg (users st) (tasks st) (effects st).
Definition with_users (us : list User) (st : Server) : Server :=
  mkServer (sockets st) (userSocket st) us (tasks st) (effects st).
Definition with_tasks (ts : list Task) (st : Server) : Server :=
  mkServer (sockets st) (userSocket st) (users st) ts (effects st).
Definition emit (es : list Effect) (st : Server) : Server :=
  mkServer (sockets st) (userSocket st) (users st) (tasks st) (effects st ++ es).
Definition spawn (t : Task) (st : Server) : Server :=
  with_tasks (tasks st ++ [t]) st.

Definition set_userId (u : string) (ws : ExtWebSocket) : ExtWebSocket :=
  mkExtWebSocket (Some u) (isAlive ws) (readyState ws) (onClose ws) (onPong ws).
Definition set_isAlive (b : bool) (ws : ExtWebSocket) : ExtWebSocket :=
  mkExtWebSocket (userId ws) (Some b) (readyState ws) (onClose ws) (onPong ws).
Definition set_readyState (rs : ReadyState) (ws : ExtWebSocket) : ExtWebSocket :=
  mkExtWebSocket (userId ws) (isAlive ws) rs (onClose ws) (onPong ws).
Definition set_listeners (u : string) (ws : ExtWebSocket) : ExtWebSocket :=
  mkExtWebSocket (userId ws) (isAlive ws) (readyState ws) (Some u) true.

(** Assignment to a field of the object behind reference [r]. *)
Definition modify (r : nat) (f : ExtWebSocket → ExtWebSocket) (st : Server) : Server :=
  match sockets st !! r with
  | Some ws => with_sockets (<[r := f ws]> (sockets st)) st
  | None => st
  end.

(** ** JavaScript helpers *)

(** [s.split(sep)] for a non-empty separator: [cur] is the piece being read,
    [skip] counts the characters of a matched separator still to drop. *)
Fixpoint split_from (sep : string) (skip : nat) (cur : string) (s : string) : list string :=
  match s with
  | EmptyString => [cur]
  | String c s' =>
      match skip with
      | S n => split_from sep n cur s'
      | O =>
          if String.prefix sep s
          then cur :: split_from sep (String.length sep - 1) "" s'
          else split_from sep 0 (cur +:+ String c "") s'
      end
  end.

Definition split (s sep : string) : list string := split_from sep 0 "" s.

(** Truthiness of a [string | undefined]. *)
Definition truthy (o : option string) : bool :=
  match o with
  | Some s => negb (String.eqb s "")
  | None => false
  end.

(** [u.userId] for the object behind [r].  A reference outside the store
    stands for an undefined slot and reads as [undefined] here, where the
    callback of [findIndex] would raise; the registry of a server that
    started empty never has such a slot ([registry_valid] below). *)
Definition userIdAt (h : list ExtWebSocket) (r : nat) : option string :=
  h !! r ≫= userId.

(** [userSocket.findIndex((u) => u.userId === id)]; [None] is the result -1. *)
Definition findIndex (id : option string) (st : Server) : option nat :=
  fst <$> list_find (λ u, userIdAt (sockets st) u = id) (userSocket st).

(** [userSocket.splice(index, 1)]. *)
Definition splice (index : nat) (st : Server) : Server :=
  with_userSocket (delete index (userSocket st)) st.

(** [ws.terminate()]: the transport is destroyed at once; unless it was
    already closed its state becomes [CLOSING], and its ["close"] event is
    delivered later. *)
Definition terminate (r : nat) (st : Server) : Server :=
  emit [Terminate r]
    (modify r (λ ws, if decide (readyState ws = CLOSED) then ws
                     else set_readyState CLOSING ws) st).

(** ** [broadcastUserStatus] *)

(** [userSocket.map((ws) => ws.userId).filter(Boolean)]. *)
Definition onlineUserIds (st : Server) : list string :=
  omap (λ r, match userIdAt (sockets st) r with
             | Some s => if truthy (Some s) then Some s else None
             | None => None
             end) (userSocket st).

(** The part of [broadcastUserStatus] before its [await]. *)
Definition broadcastUserStatus (st : Server) : Server :=
  spawn (AwaitUserFind (onlineUserIds st)) st.

(** What [JSON.stringify] writes for the value of a [String] path: nothing
    for [undefined]. *)
Definition json_value (v : Field) : option JsValue :=
  match v with
  | Undefined => None
  | Null => Some JNull
  | Text s => Some (JString s)
  end.

(** The property [name: v] of an object literal, as [JSON.stringify] writes
    it: a property whose value is [undefined] is left out. *)
Definition json_property (name : string) (v : Field) : list (string * JsValue) :=
  match json_value v with
  | Some j => [(name, j)]
  | None => []
  end.

(** One element of [usersWithStatus], as it is serialised by the
    [JSON.stringify] of line 135. *)
Definition userWithStatus (online : list string) (user : User) : JsValue :=
  JObject ([("_id", JString (_id user))] ++
           json_property "username" (username user) ++
           json_property "email" (email user) ++
           [("online", JBool (bool_decide (_id user ∈ online)))]).

Definition usersWithStatus (online : list string) (found : list User) : list JsValue :=
  map (userWithStatus online) found.

Definition userStatusMessage (us : list JsValue) : JsValue :=
  JObject [("type", JString "user-status"); ("users", JArray us)].

(** [for (const ws of userSocket) ws.send(data)]: the effects of the sends
    made, and whether a send raised ([throws r] tells whether the transport
    behind [r] raises on this send). *)
Fixpoint send_loop (throws : nat → bool) (data : JsValue) (l : list nat)
  : list Effect * bool :=
  match l with
  | [] => ([], false)
  | r :: l' =>
      if throws r then ([], true)
      else let '(es, threw) := send_loop throws data l' in (Send r data :: es, threw)
  end.

(** The part of [broadcastUserStatus] after its [await]: [found] is the
    result of [User.find], [None] when the query is rejected.  One
    [try]/[catch] encloses the whole body. *)
Definition broadcastUserStatus_resume (online : list string)
    (found : option (list User)) (throws : nat → bool) (st : Server) : Server :=
  match found with
  | None => emit [ConsoleError "Error broadcasting user status:"] st
  | Some us =>
      let data := userStatusMessage (usersWithStatus online us) in
      let '(es, threw) := send_loop throws data (userSocket st) in
      if threw
      then emit (es ++ [ConsoleError "Error broadcasting user status:"]) st
      else emit es st
  end.

(** ** [updateUserLastLogin] *)

Definition updateUserLastLogin (id : string) (now : Z) (st : Server) : Server :=
  spawn (AwaitFindByIdAndUpdate id now) st.

(** [User.findByIdAndUpdate(id, { lastLogin: date })]: the first document
    with that [_id], if any. *)
Fixpoint findByIdAndUpdate (id : string) (date : Z) (us : list User) : list User :=
  match us with
  | [] => []
  | u :: us' =>
      if decide (_id u = id)
      then mkUser (_id u) (username u) (email u) date :: us'
      else u :: findByIdAndUpdate id date us'
  end.

Definition updateUserLastLogin_resume (id : string) (date : Z) (ok : bool)
    (st : Server) : Server :=
  if ok then with_users (findByIdAndUpdate id date (users st)) st
  else emit [ConsoleError "Error updating last login:"] st.

(** ** [deleteInactiveUsers] *)

Definition inactive (cutoff : Z) (u : User) : bool := (lastLogin u <? cutoff)%Z.

Definition deleteInactiveUsers (now : Z) (st : Server) : Server :=
  let tenMinutesAgo := (now - 2 * 60 * 1000)%Z in
  spawn (AwaitInactiveFind tenMinutesAgo) st.

Definition deleteInactiveUsers_found (cutoff : Z) (ok : bool) (st : Server) : Server :=
  if ok then
    let inactiveUsers := List.filter (inactive cutoff) (users st) in
    if (0 <? length inactiveUsers)%nat
    then spawn (AwaitDeleteMany cutoff) st
    else st
  else emit [ConsoleError "Error deleting inactive users:"] st.

Definition deleteInactiveUsers_deleted (cutoff : Z) (ok : bool) (st : Server) : Server :=
  if ok then
    broadcastUserStatus
      (with_users (List.filter (λ u, negb (inactive cutoff u)) (users st)) st)
  else emit [ConsoleError "Error deleting inactive users:"] st.

(** ** The ["connection"] listener *)

(** [req.url?.split("?userId=")[1]]. *)
Definition requestUserId (url : option string) : option string :=
  url ≫= λ s, split s "?userId=" !! 1%nat.

Definition newSocket : ExtWebSocket := mkExtWebSocket None None OPEN None false.

(** Lines 70 to 103, for a request whose [userId] is truthy. *)
Definition admit_connection (ws : nat) (id : string) (now : Z) (st : Server) : Server :=
  let st := modify ws (λ o, set_isAlive true (set_userId id o)) st in
  let st :=
    match findIndex (Some id) st with
    | Some existingIndex =>
        let st :=
          match userSocket st !! existingIndex with
          | Some existingSocket =>
              match sockets st !! existingSocket with
              | Some _ => terminate existingSocket st
              | None => st
              end
          | None => st
          end in
        splice existingIndex st
    | None => st
    end in
  let st := with_userSocket (userSocket st ++ [ws]) st in
  let st := updateUserLastLogin id now st in
  let st := broadcastUserStatus st in
  modify ws (set_listeners id) st.

(** [wss.on("connection", (ws, req) => ...)]: the transport hands over a
    fresh open socket, which gets the next reference. *)
Definition connection (url : option string) (now : Z) (st : Server) : Server :=
  let ws := length (sockets st) in
  let st := with_sockets (sockets st ++ [newSocket]) st in
  match requestUserId url with
  | Some id => if truthy (Some id) then admit_connection ws id now st else st
  | None => st
  end.

(** The closure given to [ws.on("close", ...)], with its captured [userId]. *)
Definition close_listener (id : string) (st : Server) : Server :=
  match findIndex (Some id) st with
  | Some index => broadcastUserStatus (splice index st)
  | None => st
  end.

(** The transport behind [ws] has closed and emits ["close"]. *)
Definition close_event (ws : nat) (st : Server) : Server :=
  let st := modify ws (set_readyState CLOSED) st in
  match sockets st !! ws ≫= onClose with
  | Some id => close_listener id st
  | None => st
  end.

(** The transport behind [ws] emits ["pong"]. *)
Definition pong_event (ws : nat) (st : Server) : Server :=
  match sockets st !! ws with
  | Some o => if onPong o then modify ws (set_isAlive true) st else st
  | None => st
  end.

(** ** The heartbeat timer *)

(** The callback of [userSocket.forEach], applied to the element [r]. *)
Definition heartbeat_visit (r : nat) (st : Server) : Server :=
  match sockets st !! r with
  | None => st
  | Some ws =>
      if negb (bool_decide (readyState ws = OPEN)) then st
      else if negb (bool_decide (isAlive ws = Some true)) then
        let st := terminate r st in
        match findIndex (userIdAt (sockets st) r) st with
        | Some index => broadcastUserStatus (splice index st)
        | None => st
        end
      else emit [Ping r] (modify r (set_isAlive false) st)
  end.

(** [Array.prototype.forEach]: the length is read once, index [k] runs over
    [0 .. len-1], and an index that is no longer in the array is passed
    over.  [n] is the number of indices still to go. *)
Fixpoint heartbeat_loop (n k : nat) (st : Server) : Server :=
  match n with
  | O => st
  | S n' =>
      match userSocket st !! k with
      | Some r => heartbeat_loop n' (S k) (heartbeat_visit r st)
      | None => heartbeat_loop n' (S k) st
      end
  end.

Definition heartbeat (st : Server) : Server :=
  heartbeat_loop (length (userSocket st)) 0 st.

(** ** The staleness timer *)

(** One turn of [for (let i = userSocket.length - 1; i >= 0; i--)]. *)
Definition sweep_visit (i : nat) (st : Server) : Server :=
  match userSocket st !! i ≫= λ r, sockets st !! r with
  | None => splice i st
  | Some ws =>
      if negb (bool_decide (readyState ws = OPEN)) then splice i st else st
  end.

(** The turns for [i = n-1] down to [0]. *)
Fixpoint sweep_loop (n : nat) (st : Server) : Server :=
  match n with
  | O => st
  | S i => sweep_loop i (sweep_visit i st)
  end.

Definition staleness_sweep (st : Server) : Server :=
  let initialCount := length (userSocket st) in
  let st := sweep_loop (length (userSocket st)) st in
  let removedCount := initialCount - length (userSocket st) in
  if (0 <? removedCount)%nat then broadcastUserStatus st else st.

(** ** Events *)

Inductive Event :=
| Connection (url : option string) (now : Z)
| CloseEvent (ws : nat)
| PongEvent (ws : nat)
| ReadyStateChange (ws : nat) (rs : ReadyState)
    (* the transport changes state under the server *)
| HeartbeatTick
| StalenessTick
| ReconcilerTick (now : Z)
| Settle (k : nat) (ok : bool) (throws : nat → bool).
    (* the awaited call of the k-th suspended task settles: fulfilled when
       [ok], rejected otherwise; [throws] is the behaviour of [send] *)

Definition resume (t : Task) (ok : bool) (throws : nat → bool) (st : Server) : Server :=
  match t with
  | AwaitFindByIdAndUpdate id date => updateUserLastLogin_resume id date ok st
  | AwaitUserFind online =>
      broadcastUserStatus_resume online (if ok then Some (users st) else None) throws st
  | AwaitInactiveFind cutoff => deleteInactiveUsers_found cutoff ok st
  | AwaitDeleteMany cutoff => deleteInactiveUsers_deleted cutoff ok st
  end.

Definition step (e : Event) (st : Server) : Server :=
  match e with
  | Connection url now => connection url now st
  | CloseEvent ws => close_event ws st
  | PongEvent ws => pong_event ws st
  | ReadyStateChange ws rs => modify ws (set_readyState rs) st
  | HeartbeatTick => heartbeat st
  | StalenessTick => staleness_sweep st
  | ReconcilerTick now => deleteInactiveUsers now st
  | Settle k ok throws =>
      match tasks st !! k with
      | Some t => resume t ok throws (with_tasks (delete k (tasks st)) st)
      | None => st
      end
  end.

Definition run (evs : list Event) (st : Server) : Server :=
  fold_left (λ s e, step e s) evs st.

Definition reachable (st : Server) : Prop :=
  ∃ directory evs, st = run evs (initial directory).

(** Calls of [broadcastUserStatus] among suspended tasks. *)
Definition is_broadcast (t : Task) : bool :=
  match t with AwaitUserFind _ => true | _ => false end.
Definition broadcasts (ts : list Task) : nat := length (List.filter is_broadcast ts).

(** Calls of [terminate] among effects. *)
Definition is_terminate (e : Effect) : bool :=
  match e with Terminate _ => true | _ => false end.
Definition terminations (es : list Effect) : nat := length (List.filter is_terminate es).

(** The names of the fields of an object. *)
Definition field_names (v : JsValue) : list string :=
  match v with JObject fields => map fst fields | _ => [] end.

(** Lines 74 to 82: the entry already held for [id], if any, is terminated
    and taken out. *)
Definition replace_existing (id : string) (st : Server) : Server :=
  match findIndex (Some id) st with
  | Some existingIndex =>
      splice existingIndex
        match userSocket st !! existingIndex with
        | Some existingSocket =>
            match sockets st !! existingSocket with
            | Some _ => terminate existingSocket st
            | None => st
            end
        | None => st
        end
  | None => st
  end.

(** The state in which the ["connection"] listener looks for a duplicate:
    the fresh socket carries its [userId] and is not yet registered. *)
Definition accepted (id : string) (st : Server) : Server :=
  modify (length (sockets st)) (λ o, set_isAlive true (set_userId id o))
    (with_sockets (sockets st ++ [newSocket]) st).

(** Entries taken out of the registry by one heartbeat sweep, and calls of
    [broadcastUserStatus] made by it. *)
Definition heartbeat_evicted (st : Server) : nat :=
  length (userSocket st) - length (userSocket (heartbeat st)).
Definition heartbeat_broadcasts (st : Server) : nat :=
  broadcasts (tasks (heartbeat st)) - broadcasts (tasks st).

(** The effects added between [st] and a later state [st']. *)
Definition new_effects (st st' : Server) : list Effect :=
  drop (length (effects st)) (effects st').

(** The value of the field [name] of an object. *)
Definition get_field (name : string) (v : JsValue) : option JsValue :=
  match v with
  | JObject fields => snd <$> List.find (λ f, String.eqb (fst f) name) fields
  | _ => None
  end.

(** Whether the slot [r] holds a socket whose transport is open. *)
Definition open_at (h : list ExtWebSocket) (r : nat) : bool :=
  match h !! r with
  | Some ws => bool_decide (readyState ws = OPEN)
  | None => false
  end.

(** One run of the reconciler: the timer fires, the query for inactive users
    is fulfilled and, when it found any, the deletion is fulfilled; no other
    event comes in between. *)
Definition reconciler_run (now : Z) (st : Server) : Server :=
  let n := length (tasks st) in
  run [ReconcilerTick now; Settle n true (λ _, false); Settle n true (λ _, false)] st.

(** ** The [/register] endpoint *)

(** [res.status(...).json({ message, User })]. *)
Record Response := mkResponse {
  status : nat;
  message : string;
  responseUser : option User
}.

(** [User.findOne({ email })] for a string [email]: the first document
    whose [email] is that string. *)
Definition findOne_email (mail : string) (us : list User) : option User :=
  List.find (λ u, bool_decide (email u = Text mail)) us.

(** [app.post("/register", ...)], lines 34 to 55, for a body whose
    [username] and [email] are strings, with no other event between its two
    awaits.  [fresh] is the [_id] that [new User(...)] generates; [found] and
    [saved] tell whether [findOne] and [save] are fulfilled.  [save] on the
    document found writes its modified [lastLogin]; [save] on the new
    document inserts it. *)
Definition register (name mail : string) (now : Z) (fresh : string)
    (found saved : bool) (us : list User) : Response * list User :=
  if negb found then (mkResponse 500 "Server error" None, us) else
  match findOne_email mail us with
  | Some user =>
      let user := mkUser (_id user) (username user) (email user) now in
      if saved
      then (mkResponse 200 "User logged in successfully" (Some user),
            findByIdAndUpdate (_id user) now us)
      else (mkResponse 500 "Server error" None, us)
  | None =>
      let newUser := mkUser fresh (Text name) (Text mail) now in
      if saved
      then (mkResponse 201 "User registered successfully" (Some newUser),
            us ++ [newUser])
      else (mkResponse 500 "Server error" None, us)
  end.

(** The endpoint acting on the directory of the server. *)
Definition register_request (name mail : string) (now : Z) (fresh : string)
    (found saved : bool) (st : Server) : Response * Server :=
  let '(response, us) := register name mail now fresh found saved (users st) in
  (response, with_users us st).

(** ** Further observations *)

(** Whether the character [c] occurs in [s]. *)
Fixpoint has_char (c : ascii) (s : string) : bool :=
  match s with
  | EmptyString => false
  | String c' s' => if Ascii.eqb c' c then true else has_char c s'
  end.

(** The socket an effect is addressed to. *)
Definition target (e : Effect) : option nat :=
  match e with
  | Terminate r | Ping r | Send r _ => Some r
  | ConsoleError _ => None
  end.

(** Whether the heartbeat callback, called on slot [r], would take the
    eviction branch: the socket is open and its flag is not set. *)
Definition due (h : list ExtWebSocket) (r : nat) : bool :=
  match h !! r with
  | Some ws =>
      bool_decide (readyState ws = OPEN) && negb (bool_decide (isAlive ws = Some true))
  | None => false
  end.

(** A socket as the ["connection"] listener leaves it when it admits it. *)
Definition admitted (ws : ExtWebSocket) : Prop :=
  ∃ id, id ≠ "" ∧ userId ws = Some id ∧ onClose ws = Some id ∧
        onPong ws = true ∧ is_Some (isAlive ws).

Definition registry_admitted (st : Server) : Prop :=
  Forall (λ r, ∃ ws, sockets st !! r = Some ws ∧ admitted ws) (userSocket st).

(** What the listeners and timers keep of a socket: they write only
    [isAlive] and the transport writes only [readyState]. *)
Definition same_admission (ws ws' : ExtWebSocket) : Prop :=
  userId ws' = userId ws ∧ onClose ws' = onClose ws ∧ onPong ws' = onPong ws ∧
  (is_Some (isAlive ws) → is_Some (isAlive ws')).

Definition evolves (st st' : Server) : Prop :=
  (∀ r ws, sockets st !! r = Some ws →
           ∃ ws', sockets st' !! r = Some ws' ∧ same_admission ws ws') ∧
  userSocket st' `sublist_of` userSocket st.

(** The effects [es] are addressed to sockets of [reg] only. *)
Definition addresses (reg : list nat) (es : list Effect) : Prop :=
  ∀ x r, x ∈ es → target x = Some r → r ∈ reg.

(** ** Invariants of the registry *)

(** The identities of the registry entries, in registry order. *)
Definition registry_ids (st : Server) : list (option string) :=
  userIdAt (sockets st) <$> userSocket st.

(** No two entries of the registry carry the same [userId]. *)
Definition unique_userIds (st : Server) : Prop := NoDup (registry_ids st).

(** Every slot of the registry refers to a socket object. *)
Definition registry_valid (st : Server) : Prop :=
  Forall (λ r, is_Some (sockets st !! r)) (userSocket st).

(** A ["close"] listener captured the [userId] of its own socket. *)
Definition listeners_match (st : Server) : Prop :=
  ∀ r ws id, sockets st !! r = Some ws → onClose ws = Some id → userId ws = Some id.

Record Inv (st : Server) : Prop := mkInv {
  inv_valid : registry_valid st;
  inv_unique : unique_userIds st;
  inv_listeners : listeners_match st
}.

(** What no listener but ["connection"] changes of a socket. *)
Definition identity (ws : ExtWebSocket) : option string * option string :=
  (userId ws, onClose ws).

Definition same_identities (st st' : Server) : Prop :=
  ∀ r, identity <$> sockets st' !! r = identity <$> sockets st !! r.

(** [st'] has the sockets of [st], with their identities, and its registry
    is the registry of [st] with some entries removed. *)
Definition shrinks (st st' : Server) : Prop :=
  same_identities st st' ∧ userSocket st' `sublist_of` userSocket st.

(** * Properties *)

(** ** Store and registry updates *)

Lemma modify_userSocket r f st : userSocket (modify r f st) = userSocket st.
Proof. unfold modify. by destruct (sockets st !! r). Qed.

Lemma modify_users r f st : users (modify r f st) = users st.
Proof. unfold modify. by destruct (sockets st !! r). Qed.

Lemma modify_tasks r f st : tasks (modify r f st) = tasks st.
Proof. unfold modify. by destruct (sockets st !! r). Qed.

Lemma modify_effects r f st : effects (modify r f st) = effects st.
Proof. unfold modify. by destruct (sockets st !! r). Qed.

Lemma lookup_modify r f st r' :
  sockets (modify r f st) !! r' =
    if decide (r = r') then f <$> sockets st !! r' else sockets st !! r'.
Proof.
  unfold modify. destruct (sockets st !! r) as [ws|] eqn:E; simpl.
  - case_decide as Hr; subst.
    + rewrite list_lookup_insert_eq; [by rewrite E|by eapply lookup_lt_Some].
    + by rewrite list_lookup_insert_ne.
  - case_decide; subst; [by rewrite E|done].
Qed.

Lemma lookup_modify_ne r f st r' :
  r ≠ r' → sockets (modify r f st) !! r' = sockets st !! r'.
Proof. intros. rewrite lookup_modify. by case_decide. Qed.

Lemma lookup_modify_eq r f st :
  sockets (modify r f st) !! r = f <$> sockets st !! r.
Proof. rewrite lookup_modify. by case_decide. Qed.

Lemma terminate_userSocket r st : userSocket (terminate r st) = userSocket st.
Proof. unfold terminate. simpl. apply modify_userSocket. Qed.

Lemma terminate_tasks r st : tasks (terminate r st) = tasks st.
Proof. unfold terminate. simpl. apply modify_tasks. Qed.

Lemma terminate_users r st : users (terminate r st) = users st.
Proof. unfold terminate. simpl. apply modify_users. Qed.

Lemma terminate_effects r st : effects (terminate r st) = effects st ++ [Terminate r].
Proof. unfold terminate. simpl. by rewrite modify_effects. Qed.


(** ** Identities are stable *)

Lemma NoDup_fmap_elem_inj {A B} (f : A → B) (l : list A) x y :
  NoDup (f <$> l) → x ∈ l → y ∈ l → f x = f y → x = y.
Proof.
  intros Hnd [i Hi]%list_elem_of_lookup [j Hj]%list_elem_of_lookup Heq.
  assert (i = j) as ->; [|congruence].
  eapply NoDup_lookup; [exact Hnd| |]; rewrite list_lookup_fmap;
    [by rewrite Hi|by rewrite Hj; simpl; rewrite Heq].
Qed.


Lemma same_identities_refl st : same_identities st st.
Proof. by intros r. Qed.

Lemma same_identities_trans st1 st2 st3 :
  same_identities st1 st2 → same_identities st2 st3 → same_identities st1 st3.
Proof. intros H1 H2 r. by rewrite H2, H1. Qed.

Lemma same_identities_modify r f st :
  (∀ ws, identity (f ws) = identity ws) → same_identities st (modify r f st).
Proof.
  intros Hf r'. rewrite lookup_modify. case_decide; [|done].
  destruct (sockets st !! r'); simpl; [by rewrite Hf|done].
Qed.

Lemma same_identities_terminate r st : same_identities st (terminate r st).
Proof.
  unfold terminate. intros r'. simpl.
  apply same_identities_modify. intros ws. by case_decide.
Qed.

Lemma same_identities_userIdAt st st' r :
  same_identities st st' → userIdAt (sockets st') r = userIdAt (sockets st) r.
Proof.
  intros H. specialize (H r). unfold userIdAt.
  destruct (sockets st' !! r), (sockets st !! r); simplify_eq/=; congruence.
Qed.

Lemma same_identities_ids st st' :
  same_identities st st' → userSocket st' = userSocket st →
  registry_ids st' = registry_ids st.
Proof.
  intros H Hreg. unfold registry_ids. rewrite Hreg.
  apply list_fmap_ext. intros ???. by apply same_identities_userIdAt.
Qed.

Lemma shrinks_refl st : shrinks st st.
Proof. split; [apply same_identities_refl|done]. Qed.

Lemma shrinks_trans st1 st2 st3 : shrinks st1 st2 → shrinks st2 st3 → shrinks st1 st3.
Proof.
  intros [H1 S1] [H2 S2]. split; [by eapply same_identities_trans|by etrans].
Qed.

Lemma shrinks_same st st' :
  same_identities st st' → userSocket st' = userSocket st → shrinks st st'.
Proof. intros H Hreg. split; [done|by rewrite Hreg]. Qed.

Lemma shrinks_splice i st : shrinks st (splice i st).
Proof. split; [by intros r|apply sublist_delete]. Qed.

Lemma shrinks_unique st st' : shrinks st st' → unique_userIds st → unique_userIds st'.
Proof.
  intros [Hid Hsub] Hu. unfold unique_userIds, registry_ids in *.
  eapply sublist_NoDup; [exact Hu|].
  erewrite list_fmap_ext; [by apply fmap_sublist|].
  intros ???. by apply same_identities_userIdAt.
Qed.

Lemma shrinks_Inv st st' : shrinks st st' → Inv st → Inv st'.
Proof.
  intros Hsh [Hv Hu Hl]. pose proof Hsh as [Hid Hsub]. split.
  - unfold registry_valid in *. rewrite Forall_forall in *.
    intros r Hr. destruct (Hv r) as [ws Hws]; [by eapply elem_of_sublist|].
    specialize (Hid r). rewrite Hws in Hid.
    destruct (sockets st' !! r); [eauto|done].
  - by eapply shrinks_unique.
  - intros r ws' id Hws' Hc. specialize (Hid r). rewrite Hws' in Hid.
    destruct (sockets st !! r) as [ws|] eqn:E; [|done].
    simpl in Hid. injection Hid as Hu' Hc'.
    rewrite Hu'. apply (Hl r ws id E). congruence.
Qed.

Lemma shrinks_modify r f st :
  (∀ ws, identity (f ws) = identity ws) → shrinks st (modify r f st).
Proof.
  intros. apply shrinks_same; [by apply same_identities_modify|apply modify_userSocket].
Qed.

Lemma shrinks_terminate r st : shrinks st (terminate r st).
Proof.
  apply shrinks_same; [apply same_identities_terminate|apply terminate_userSocket].
Qed.

Lemma shrinks_emit es st : shrinks st (emit es st).
Proof. by apply shrinks_same. Qed.

Lemma shrinks_spawn t st : shrinks st (spawn t st).
Proof. by apply shrinks_same. Qed.

Lemma shrinks_with_users us st : shrinks st (with_users us st).
Proof. by apply shrinks_same. Qed.

Lemma shrinks_with_tasks ts st : shrinks st (with_tasks ts st).
Proof. by apply shrinks_same. Qed.

Lemma shrinks_broadcast st : shrinks st (broadcastUserStatus st).
Proof. apply shrinks_spawn. Qed.

Create HintDb shrinks.
#[local] Hint Resolve shrinks_refl shrinks_splice shrinks_terminate shrinks_emit
  shrinks_spawn shrinks_with_users shrinks_with_tasks shrinks_broadcast : shrinks.

Lemma shrinks_close_listener id st : shrinks st (close_listener id st).
Proof.
  unfold close_listener. destruct (findIndex _ _); [|apply shrinks_refl].
  eapply shrinks_trans; [apply shrinks_splice|apply shrinks_broadcast].
Qed.

Lemma shrinks_close_event r st : shrinks st (close_event r st).
Proof.
  unfold close_event.
  eapply shrinks_trans; [by apply (shrinks_modify r (set_readyState CLOSED))|].
  destruct (_ ≫= onClose); [apply shrinks_close_listener|apply shrinks_refl].
Qed.

Lemma shrinks_pong_event r st : shrinks st (pong_event r st).
Proof.
  unfold pong_event. destruct (sockets st !! r) as [o|]; [|apply shrinks_refl].
  destruct (onPong o); [by apply shrinks_modify|apply shrinks_refl].
Qed.

Lemma shrinks_heartbeat_visit r st : shrinks st (heartbeat_visit r st).
Proof.
  unfold heartbeat_visit. destruct (sockets st !! r) as [ws|]; [|apply shrinks_refl].
  destruct (negb _); [apply shrinks_refl|].
  destruct (negb _).
  - eapply shrinks_trans; [apply shrinks_terminate|].
    destruct (findIndex _ _); [|apply shrinks_refl].
    eapply shrinks_trans; [apply shrinks_splice|apply shrinks_broadcast].
  - eapply shrinks_trans; [by apply (shrinks_modify r (set_isAlive false))|].
    apply shrinks_emit.
Qed.

Lemma shrinks_heartbeat_loop n k st : shrinks st (heartbeat_loop n k st).
Proof.
  revert k st. induction n as [|n IH]; intros k st; simpl; [apply shrinks_refl|].
  destruct (userSocket st !! k); [|apply IH].
  eapply shrinks_trans; [apply shrinks_heartbeat_visit|apply IH].
Qed.

Lemma shrinks_heartbeat st : shrinks st (heartbeat st).
Proof. apply shrinks_heartbeat_loop. Qed.

Lemma shrinks_sweep_visit i st : shrinks st (sweep_visit i st).
Proof.
  unfold sweep_visit. destruct (_ ≫= _); [|apply shrinks_splice].
  destruct (negb _); [apply shrinks_splice|apply shrinks_refl].
Qed.

Lemma shrinks_sweep_loop n st : shrinks st (sweep_loop n st).
Proof.
  revert st. induction n as [|n IH]; intros st; simpl; [apply shrinks_refl|].
  eapply shrinks_trans; [apply shrinks_sweep_visit|apply IH].
Qed.

Lemma shrinks_staleness_sweep st : shrinks st (staleness_sweep st).
Proof.
  unfold staleness_sweep. destruct (_ <? _)%nat.
  - eapply shrinks_trans; [apply shrinks_sweep_loop|apply shrinks_broadcast].
  - apply shrinks_sweep_loop.
Qed.

Lemma shrinks_resume t ok throws st : shrinks st (resume t ok throws st).
Proof.
  destruct t; simpl.
  - unfold updateUserLastLogin_resume. destruct ok; auto with shrinks.
  - unfold broadcastUserStatus_resume. destruct ok; [|auto with shrinks].
    destruct (send_loop _ _ _) as [es []]; auto with shrinks.
  - unfold deleteInactiveUsers_found. destruct ok; [|auto with shrinks].
    destruct (_ <? _)%nat; auto with shrinks.
  - unfold deleteInactiveUsers_deleted. destruct ok; [|auto with shrinks].
    eapply shrinks_trans; [apply shrinks_with_users|apply shrinks_broadcast].
Qed.

(** Every event but a connection leaves the identities alone and can only
    take entries out of the registry. *)
Lemma shrinks_step e st :
  (∀ url now, e ≠ Connection url now) → shrinks st (step e st).
Proof.
  intros He. destruct e as [url now|r|r|r rs| | |now|k ok throws]; simpl.
  - by destruct (He url now).
  - apply shrinks_close_event.
  - apply shrinks_pong_event.
  - by apply shrinks_modify.
  - apply shrinks_heartbeat.
  - apply shrinks_staleness_sweep.
  - apply shrinks_spawn.
  - destruct (tasks st !! k); [|apply shrinks_refl].
    eapply shrinks_trans; [apply shrinks_with_tasks|apply shrinks_resume].
Qed.

(** ** [findIndex] *)

Lemma findIndex_Some id st j :
  findIndex id st = Some j ↔
    ∃ r, userSocket st !! j = Some r ∧ userIdAt (sockets st) r = id ∧
         ∀ i r', userSocket st !! i = Some r' → i < j → userIdAt (sockets st) r' ≠ id.
Proof.
  unfold findIndex. split.
  - intros H. apply fmap_Some in H as [[j' r] [H ->]].
    apply list_find_Some in H as (H1 & H2 & H3). exists r. eauto.
  - intros (r & H1 & H2 & H3). apply fmap_Some. exists (j, r). split; [|done].
    apply list_find_Some. eauto.
Qed.

Lemma findIndex_None id st :
  findIndex id st = None ↔ id ∉ registry_ids st.
Proof.
  unfold findIndex, registry_ids. rewrite fmap_None, list_find_None, Forall_forall.
  rewrite list_elem_of_fmap. split.
  - intros H (r & -> & Hr). by apply (H r).
  - intros H r Hr Hid. apply H. eauto.
Qed.

Lemma findIndex_ids id st j :
  findIndex id st = Some j → registry_ids st !! j = Some id.
Proof.
  intros (r & H1 & H2 & _)%findIndex_Some.
  unfold registry_ids. by rewrite list_lookup_fmap, H1; simpl; rewrite H2.
Qed.

Lemma NoDup_delete_lookup {A} (l : list A) j x :
  NoDup l → l !! j = Some x → x ∉ delete j l.
Proof.
  intros Hnd Hj. rewrite <-(take_drop_middle l j x Hj) in Hnd.
  apply NoDup_app in Hnd as (_ & H1 & H2). apply NoDup_cons in H2 as [H2 _].
  rewrite delete_take_drop. intros [Hin|Hin]%elem_of_app; [|done].
  apply (H1 x Hin). left.
Qed.

Lemma filter_none {A} (P : A → Prop) `{∀ x, Decision (P x)} (l : list A) :
  Forall (λ x, ¬ P x) l → filter P l = [].
Proof.
  induction 1 as [|x l Hx _ IH]; [done|]. by rewrite filter_cons_False.
Qed.

Lemma registry_ids_splice j st :
  registry_ids (splice j st) = delete j (registry_ids st).
Proof. unfold registry_ids. simpl. apply list_fmap_delete. Qed.

(** ** Admission *)

Lemma admit_connection_unfold ws id now st :
  admit_connection ws id now st =
    let st1 := replace_existing id (modify ws (λ o, set_isAlive true (set_userId id o)) st) in
    modify ws (set_listeners id)
      (broadcastUserStatus
         (updateUserLastLogin id now
            (with_userSocket (userSocket st1 ++ [ws]) st1))).
Proof. reflexivity. Qed.

Lemma shrinks_replace_existing id st : shrinks st (replace_existing id st).
Proof.
  unfold replace_existing. destruct (findIndex _ _) as [j|]; [|apply shrinks_refl].
  eapply shrinks_trans; [|apply shrinks_splice].
  destruct (userSocket st !! j) as [r|]; [|apply shrinks_refl].
  destruct (sockets st !! r); [apply shrinks_terminate|apply shrinks_refl].
Qed.

Lemma replace_existing_absent id st :
  unique_userIds st → Some id ∉ registry_ids (replace_existing id st).
Proof.
  intros Hu. unfold replace_existing.
  destruct (findIndex (Some id) st) as [j|] eqn:E; [|by apply findIndex_None].
  rewrite registry_ids_splice.
  set (st' := match userSocket st !! j with Some _ => _ | None => _ end).
  assert (registry_ids st' = registry_ids st) as ->.
  { subst st'. destruct (userSocket st !! j) as [r|]; [|done].
    destruct (sockets st !! r); [|done].
    apply same_identities_ids;
      [apply same_identities_terminate|apply terminate_userSocket]. }
  apply NoDup_delete_lookup; [done|by apply findIndex_ids].
Qed.

(** A just accepted socket does not disturb the registry. *)
Lemma Inv_accept st : Inv st → Inv (with_sockets (sockets st ++ [newSocket]) st).
Proof.
  intros [Hv Hu Hl]. split.
  - unfold registry_valid in *. simpl. eapply Forall_impl; [exact Hv|].
    intros r [ws Hws]. exists ws. by apply lookup_app_l_Some.
  - unfold unique_userIds, registry_ids in *. simpl.
    rewrite (list_fmap_ext _ (userIdAt (sockets st))); [exact Hu|].
    intros i r Hr. unfold userIdAt.
    unfold registry_valid in Hv. rewrite Forall_forall in Hv.
    destruct (Hv r) as [ws Hws]; [by eapply list_elem_of_lookup_2|].
    by rewrite (lookup_app_l_Some _ _ _ _ Hws), Hws.
  - intros r ws id. simpl. intros Hr Hc.
    apply lookup_app_Some in Hr as [Hr|[_ Hr]]; [by eapply Hl|].
    apply list_lookup_singleton_Some in Hr as [_ <-]. done.
Qed.

(** Writing fields other than [userId] to a socket keeps the identities of
    the registry entries. *)
Lemma registry_ids_modify r f st :
  (∀ ws, userId (f ws) = userId ws) → registry_ids (modify r f st) = registry_ids st.
Proof.
  intros Hf. unfold registry_ids. rewrite modify_userSocket.
  apply list_fmap_ext. intros _ r' _. unfold userIdAt. rewrite lookup_modify.
  case_decide; [|done]. destruct (sockets st !! r'); simpl; [apply Hf|done].
Qed.

Lemma registry_valid_modify r f st :
  registry_valid st → registry_valid (modify r f st).
Proof.
  unfold registry_valid. rewrite modify_userSocket.
  intros Hv. eapply Forall_impl; [exact Hv|].
  intros r' [ws Hws]. simpl. rewrite lookup_modify.
  case_decide; rewrite Hws; eauto.
Qed.

Lemma registry_valid_fresh st :
  registry_valid st → length (sockets st) ∉ userSocket st.
Proof.
  unfold registry_valid. rewrite Forall_forall. intros Hv Hin.
  destruct (Hv _ Hin) as [ws Hws]. apply lookup_lt_Some in Hws. lia.
Qed.

(** Giving a [userId] to a socket that is not registered. *)
Lemma Inv_set_userId ws f st :
  ws ∉ userSocket st → (∀ o, onClose (f o) = onClose o) →
  (∀ o, sockets st !! ws = Some o → onClose o = None) →
  Inv st → Inv (modify ws f st).
Proof.
  intros Hws Hf Hnone [Hv Hu Hl]. split.
  - by apply registry_valid_modify.
  - unfold unique_userIds, registry_ids in *. rewrite modify_userSocket.
    rewrite (list_fmap_ext _ (userIdAt (sockets st))); [exact Hu|].
    intros i r Hr. unfold userIdAt. rewrite lookup_modify_ne; [done|].
    intros ->. apply Hws. by eapply list_elem_of_lookup_2.
  - intros r o id. rewrite lookup_modify. case_decide as Hr.
    + subst r. destruct (sockets st !! ws) as [o'|] eqn:E; [|done].
      simpl. intros [= <-]. rewrite Hf. by rewrite (Hnone o').
    + by apply Hl.
Qed.

Lemma Inv_admit_connection ws id now st :
  ws ∉ userSocket st → (∀ o, sockets st !! ws = Some o → onClose o = None) →
  is_Some (sockets st !! ws) →
  Inv st → Inv (admit_connection ws id now st).
Proof.
  intros Hws Hnone [o Ho] HI. rewrite admit_connection_unfold.
  set (f := λ o, set_isAlive true (set_userId id o)).
  set (st0 := modify ws f st).
  assert (Inv st0) as HI0 by (by apply Inv_set_userId).
  assert (userIdAt (sockets st0) ws = Some id) as Hid0.
  { unfold userIdAt, st0. rewrite lookup_modify_eq, Ho. done. }
  assert (ws ∉ userSocket st0) as Hws0 by (subst st0; by rewrite modify_userSocket).
  pose proof (shrinks_replace_existing id st0) as Hsh.
  pose proof (replace_existing_absent id st0 (inv_unique _ HI0)) as Habs.
  set (st1 := replace_existing id st0) in *. simpl.
  pose proof (shrinks_Inv _ _ Hsh HI0) as [Hv1 Hu1 Hl1].
  assert (userIdAt (sockets st1) ws = Some id) as Hid1.
  { rewrite <-Hid0. apply same_identities_userIdAt, Hsh. }
  assert (ws ∉ userSocket st1) as Hws1.
  { intros Hin. apply Hws0. eapply elem_of_sublist; [done|apply Hsh]. }
  split.
  - apply registry_valid_modify. unfold registry_valid. simpl.
    apply Forall_app. split; [done|]. apply Forall_singleton.
    unfold userIdAt in Hid1. by destruct (sockets st1 !! ws); eauto.
  - unfold unique_userIds. rewrite registry_ids_modify by done.
    unfold registry_ids. simpl. rewrite fmap_app. simpl. rewrite Hid1.
    apply NoDup_app. split_and!; [done| |apply NoDup_singleton].
    intros x Hx ->%list_elem_of_singleton. done.
  - intros r o' id'. rewrite lookup_modify. simpl. case_decide as Hr.
    + subst r. destruct (sockets st1 !! ws) as [o1|] eqn:E; [|done].
      simpl. intros [= <-]. simpl. intros [= <-].
      unfold userIdAt in Hid1. by rewrite E in Hid1.
    + by apply Hl1.
Qed.

Lemma Inv_connection url now st : Inv st → Inv (connection url now st).
Proof.
  intros HI. unfold connection.
  pose proof (Inv_accept st HI) as HI'.
  destruct (requestUserId url) as [id|]; [|done].
  destruct (truthy (Some id)); [|done].
  apply Inv_admit_connection; [| | |done]; simpl.
  - apply registry_valid_fresh, HI.
  - intros o. rewrite lookup_app_r, Nat.sub_diag by done. by intros [= <-].
  - rewrite lookup_app_r, Nat.sub_diag by done. eauto.
Qed.

Lemma Inv_initial directory : Inv (initial directory).
Proof.
  split.
  - by apply Forall_nil.
  - apply NoDup_nil_2.
  - by intros r ws id.
Qed.

Lemma Inv_step e st : Inv st → Inv (step e st).
Proof.
  intros HI. destruct e as [url now| | | | | | |];
    [by apply Inv_connection|eapply shrinks_Inv; [apply shrinks_step|done]; done..].
Qed.

Lemma Inv_run evs st : Inv st → Inv (run evs st).
Proof.
  revert st. induction evs as [|e evs IH]; intros st HI; [done|].
  simpl. apply IH. by apply Inv_step.
Qed.

Lemma Inv_reachable st : reachable st → Inv st.
Proof. intros (directory & evs & ->). apply Inv_run, Inv_initial. Qed.

Lemma connection_admitted url now id st :
  requestUserId url = Some id → truthy (Some id) = true →
  connection url now st = admit_connection (length (sockets st)) id now
                            (with_sockets (sockets st ++ [newSocket]) st).
Proof. intros H1 H2. unfold connection. by rewrite H1, H2. Qed.

Lemma connection_userSocket url now id st :
  requestUserId url = Some id → truthy (Some id) = true →
  userSocket (connection url now st) =
    userSocket (replace_existing id (accepted id st)) ++ [length (sockets st)].
Proof.
  intros H1 H2. rewrite (connection_admitted _ _ id), admit_connection_unfold by done.
  simpl. by rewrite modify_userSocket.
Qed.

Lemma connection_effects url now id st :
  requestUserId url = Some id → truthy (Some id) = true →
  effects (connection url now st) = effects (replace_existing id (accepted id st)).
Proof.
  intros H1 H2. rewrite (connection_admitted _ _ id), admit_connection_unfold by done.
  simpl. by rewrite modify_effects.
Qed.

Lemma connection_userIdAt url now id st r :
  requestUserId url = Some id → truthy (Some id) = true →
  userIdAt (sockets (connection url now st)) r =
    userIdAt (sockets (replace_existing id (accepted id st))) r.
Proof.
  intros H1 H2. rewrite (connection_admitted _ _ id), admit_connection_unfold by done.
  simpl. unfold userIdAt. rewrite lookup_modify. case_decide; [|done].
  by destruct (sockets _ !! r).
Qed.

Lemma accepted_userSocket id st : userSocket (accepted id st) = userSocket st.
Proof. unfold accepted. by rewrite modify_userSocket. Qed.

Lemma accepted_effects id st : effects (accepted id st) = effects st.
Proof. unfold accepted. by rewrite modify_effects. Qed.

Lemma accepted_lookup_old id st r ws :
  sockets st !! r = Some ws → sockets (accepted id st) !! r = Some ws.
Proof.
  intros Hr. unfold accepted. rewrite lookup_modify_ne.
  - simpl. by apply lookup_app_l_Some.
  - apply lookup_lt_Some in Hr. lia.
Qed.

Lemma accepted_userIdAt_new id st :
  userIdAt (sockets (accepted id st)) (length (sockets st)) = Some id.
Proof.
  unfold accepted, userIdAt. rewrite lookup_modify_eq. simpl.
  by rewrite lookup_app_r, Nat.sub_diag.
Qed.

Lemma accepted_ids id st :
  registry_valid st → registry_ids (accepted id st) = registry_ids st.
Proof.
  intros Hv. unfold registry_ids. rewrite accepted_userSocket.
  apply list_fmap_ext. intros i r Hr. unfold userIdAt.
  unfold registry_valid in Hv. rewrite Forall_forall in Hv.
  destruct (Hv r) as [ws Hws]; [by eapply list_elem_of_lookup_2|].
  by rewrite (accepted_lookup_old _ _ _ _ Hws), Hws.
Qed.

(** With unique identities, the entry found for an identity is the entry
    that carries it. *)
Lemma findIndex_unique id st r :
  unique_userIds st → r ∈ userSocket st → userIdAt (sockets st) r = id →
  ∃ j, findIndex id st = Some j ∧ userSocket st !! j = Some r.
Proof.
  intros Hu Hin Hid.
  destruct (findIndex id st) as [j|] eqn:E.
  - exists j. split; [done|].
    pose proof (findIndex_ids _ _ _ E) as Hj.
    apply list_elem_of_lookup in Hin as [i Hi].
    assert (registry_ids st !! i = Some id) as Hi'.
    { unfold registry_ids. by rewrite list_lookup_fmap, Hi; simpl; rewrite Hid. }
    by rewrite (NoDup_lookup _ _ _ _ Hu Hj Hi').
  - apply findIndex_None in E. destruct E.
    unfold registry_ids. apply list_elem_of_fmap. eauto.
Qed.

Lemma unique_userIds_NoDup st : unique_userIds st → NoDup (userSocket st).
Proof. apply NoDup_fmap_1. Qed.

Lemma replace_existing_found id st old :
  Inv st → old ∈ userSocket st → userIdAt (sockets st) old = Some id →
  ∃ j, userSocket st !! j = Some old ∧
       userSocket (replace_existing id st) = delete j (userSocket st) ∧
       effects (replace_existing id st) = effects st ++ [Terminate old].
Proof.
  intros [Hv Hu _] Hin Hid.
  destruct (findIndex_unique _ _ _ Hu Hin Hid) as (j & Hfind & Hj).
  exists j. split; [done|]. unfold replace_existing. rewrite Hfind, Hj.
  unfold registry_valid in Hv. rewrite Forall_forall in Hv.
  destruct (Hv old Hin) as [o Ho]. rewrite Ho.
  unfold splice. cbn [userSocket effects with_userSocket].
  by rewrite terminate_userSocket, terminate_effects.
Qed.

(** C1.  Whatever events the server has processed, no two entries of
    [userSocket] carry the same [userId].  When a connection is admitted for
    a [userId] that the entry [old] already carries, [terminate] is called on
    [old], [old] is taken out of the registry, the new socket is appended,
    and the new socket is then the one entry with that [userId]. *)
Theorem registry_uniqueness (directory : list User) (evs : list Event) :
  let st := run evs (initial directory) in
  unique_userIds st ∧
  ∀ url now id old,
    requestUserId url = Some id → truthy (Some id) = true →
    old ∈ userSocket st → userIdAt (sockets st) old = Some id →
    let ws := length (sockets st) in
    let st' := step (Connection url now) st in
    effects st' = effects st ++ [Terminate old] ∧
    (∃ j, userSocket st !! j = Some old ∧
          userSocket st' = delete j (userSocket st) ++ [ws]) ∧
    (old ∉ userSocket st') ∧
    filter (λ r, userIdAt (sockets st') r = Some id) (userSocket st') = [ws] ∧
    unique_userIds st'.
Proof.
  intros st.
  assert (Inv st) as HI by apply Inv_run, Inv_initial.
  split; [apply HI|].
  intros url now id old Hurl Hid Hin Hold ws st'. subst st'. simpl.
  pose proof (Inv_connection url now st HI) as HI'.
  assert (Inv (accepted id st)) as HIa.
  { unfold accepted. apply Inv_set_userId; [|done| |by apply Inv_accept]; simpl.
    - apply registry_valid_fresh, HI.
    - intros o. rewrite lookup_app_r, Nat.sub_diag by done. by intros [= <-]. }
  assert (userIdAt (sockets (accepted id st)) old = Some id) as Hold'.
  { destruct HI as [Hv _ _]. unfold registry_valid in Hv.
    rewrite Forall_forall in Hv. destruct (Hv old Hin) as [o Ho].
    unfold userIdAt in *. by rewrite (accepted_lookup_old _ _ _ _ Ho), <-Ho. }
  destruct (replace_existing_found id (accepted id st) old HIa) as (j & Hj & Hreg & Heff);
    [by rewrite accepted_userSocket|done|].
  rewrite accepted_userSocket in Hj, Hreg. rewrite accepted_effects in Heff.
  pose proof (replace_existing_absent id _ (inv_unique _ HIa)) as Habs.
  rewrite (connection_effects _ _ id), (connection_userSocket _ _ id) by done.
  rewrite Hreg. split_and!; [done|by exists j| | |apply HI'].
  - intros [Hd|Hw%list_elem_of_singleton]%elem_of_app.
    + revert Hd. apply NoDup_delete_lookup; [|done].
      apply unique_userIds_NoDup, HI.
    + destruct HI as [Hv _ _]. apply registry_valid_fresh in Hv. by subst.
  - rewrite filter_app.
    rewrite filter_none, filter_cons_True; [done| |].
    + rewrite (connection_userIdAt _ _ id) by done.
      pose proof (shrinks_replace_existing id (accepted id st)) as [Hs _].
      rewrite (same_identities_userIdAt _ _ _ Hs). apply accepted_userIdAt_new.
    + apply Forall_forall. intros r Hr Hrid.
      rewrite (connection_userIdAt _ _ id) in Hrid by done.
      apply Habs. unfold registry_ids. rewrite Hreg.
      apply list_elem_of_fmap. eauto.
Qed.

Lemma registry_uniqueness_witness :
  let st := run [Connection (Some "/?userId=u1") 0] (initial []) in
  let st' := step (Connection (Some "/?userId=u1") 5) st in
  effects st' = effects st ++ [Terminate 0] ∧
  (∃ j, userSocket st !! j = Some 0 ∧ userSocket st' = delete j (userSocket st) ++ [1]) ∧
  (0 ∉ userSocket st') ∧
  filter (λ r, userIdAt (sockets st') r = Some "u1") (userSocket st') = [1] ∧
  unique_userIds st'.
Proof.
  apply (proj2 (registry_uniqueness [] [Connection (Some "/?userId=u1") 0])
           (Some "/?userId=u1") 5%Z "u1" 0).
  - reflexivity.
  - reflexivity.
  - vm_compute. constructor.
  - reflexivity.
Defined.

(** ** A second connection for a connected identity *)

(** C2.  [u1] connects (socket 0) and connects again (socket 1) before the
    ["close"] event of socket 0 is delivered.  The second admission calls
    [terminate] on socket 0 and leaves the registry with the one entry of
    socket 1, and its broadcast is computed from the snapshot [["u1"]].
    When the ["close"] event of socket 0 arrives, its listener looks the
    registry up by [userId], finds the entry of socket 1 and removes it: the
    registry is empty although socket 1 is open, and the broadcast of that
    listener is computed from an empty snapshot. *)
Theorem close_of_replaced_socket_removes_new_entry :
  let connect := Connection (Some "/?userId=u1") 0 in
  let st := run [connect; connect] (initial [mkUser "u1" (Text "ann") (Text "ann@example.org") 0]) in
  let st' := step (CloseEvent 0) st in
  effects st = [Terminate 0] ∧
  userSocket st = [1] ∧
  tasks st !! 3%nat = Some (AwaitUserFind ["u1"]) ∧
  userSocket st' = [] ∧
  readyState <$> sockets st' !! 1%nat = Some OPEN ∧
  tasks st' = tasks st ++ [AwaitUserFind []].
Proof. vm_compute. repeat split. Qed.

(** ** An entry that never answers a probe *)

(** C3.  [u1] (socket 0) has missed one probe when [u2] (socket 1) is
    admitted; no ["pong"] is delivered afterwards.  The first tick after the
    admission of [u2] evicts socket 0 at index 0; socket 1 moves to index 0
    and [forEach], which goes on with index 1, passes it over: it is not
    probed and its flag stays set.  The ["close"] event of socket 0 finds
    nothing to remove.  The second tick only probes socket 1, which is still
    registered after it, and the third tick evicts it. *)
Theorem heartbeat_evicts_skipped_entry_on_third_tick :
  let st := run [Connection (Some "/?userId=u1") 0; HeartbeatTick;
                 Connection (Some "/?userId=u2") 0] (initial []) in
  let tick1 := run [HeartbeatTick; CloseEvent 0] st in
  let tick2 := step HeartbeatTick tick1 in
  let tick3 := step HeartbeatTick tick2 in
  userSocket st = [0; 1] ∧
  sockets st !! 1%nat = Some (mkExtWebSocket (Some "u2") (Some true) OPEN (Some "u2") true) ∧
  userSocket tick1 = [1] ∧
  sockets tick1 !! 1%nat = sockets st !! 1%nat ∧
  effects tick1 = effects st ++ [Terminate 0] ∧
  userSocket tick2 = [1] ∧
  readyState <$> sockets tick2 !! 1%nat = Some OPEN ∧
  effects tick2 = effects tick1 ++ [Ping 1] ∧
  userSocket tick3 = [] ∧
  effects tick3 = effects tick2 ++ [Terminate 1].
Proof. vm_compute. repeat split. Qed.

(** ** Broadcasts of a heartbeat sweep *)

Lemma broadcasts_app ts ts' : broadcasts (ts ++ ts') = broadcasts ts + broadcasts ts'.
Proof. unfold broadcasts. by rewrite List.filter_app, length_app. Qed.

Lemma terminations_app es es' :
  terminations (es ++ es') = terminations es + terminations es'.
Proof. unfold terminations. by rewrite List.filter_app, length_app. Qed.

Lemma broadcasts_all ts :
  Forall (λ t, is_broadcast t = true) ts → broadcasts ts = length ts.
Proof.
  unfold broadcasts. induction 1 as [|t ts Ht _ IH]; [done|].
  simpl. rewrite Ht. simpl. by rewrite IH.
Qed.

(** One call of the [forEach] callback on a registered socket either leaves
    registry and tasks as they are and terminates nothing, or terminates the
    socket, takes one entry out and calls [broadcastUserStatus] once. *)
Lemma heartbeat_visit_cases r st :
  r ∈ userSocket st →
  let st' := heartbeat_visit r st in
  (userSocket st' = userSocket st ∧ tasks st' = tasks st ∧
   terminations (effects st') = terminations (effects st)) ∨
  (∃ j, j < length (userSocket st) ∧
        userSocket st' = delete j (userSocket st) ∧
        tasks st' = tasks st ++ [AwaitUserFind (onlineUserIds st')] ∧
        effects st' = effects st ++ [Terminate r]).
Proof.
  intros Hin. unfold heartbeat_visit.
  destruct (sockets st !! r) as [ws|] eqn:Hws; [|by left].
  destruct (negb (bool_decide (readyState ws = OPEN))); [by left|].
  destruct (negb (bool_decide (isAlive ws = Some true))).
  - right. set (st1 := terminate r st).
    destruct (findIndex (userIdAt (sockets st1) r) st1) as [j|] eqn:E.
    + exists j. apply findIndex_Some in E as (r' & Hj & _).
      subst st1. rewrite terminate_userSocket in Hj.
      split; [by eapply lookup_lt_Some|].
      unfold broadcastUserStatus, spawn, splice.
      cbn [userSocket tasks effects with_tasks with_userSocket].
      by rewrite terminate_userSocket, terminate_tasks, terminate_effects.
    + apply findIndex_None in E. destruct E.
      unfold registry_ids. apply list_elem_of_fmap_2.
      subst st1. by rewrite terminate_userSocket.
  - left. simpl. rewrite modify_userSocket, modify_tasks, modify_effects.
    split_and!; [done..|]. rewrite terminations_app.
    change (terminations [Ping r]) with 0. lia.
Qed.

Lemma heartbeat_loop_count n k st :
  let st' := heartbeat_loop n k st in
  ∃ ts, tasks st' = tasks st ++ ts ∧
        Forall (λ t, is_broadcast t = true) ts ∧
        length ts + length (userSocket st') = length (userSocket st) ∧
        terminations (effects st') = terminations (effects st) + length ts.
Proof.
  revert k st. induction n as [|n IH]; intros k st; simpl.
  { exists []. rewrite app_nil_r. split_and!; [done|by apply Forall_nil|done|simpl; lia]. }
  destruct (userSocket st !! k) as [r|] eqn:Hk; [|apply IH].
  destruct (IH (S k) (heartbeat_visit r st)) as (ts & Ht & Hb & Hlen & Hterm).
  destruct (heartbeat_visit_cases r st) as [(Hreg & Htasks & He)|(j & Hj & Hreg & Htasks & He)];
    [by eapply list_elem_of_lookup_2| |].
  - exists ts. rewrite Ht, Htasks, Hlen, Hreg, Hterm, He. done.
  - exists (AwaitUserFind (onlineUserIds (heartbeat_visit r st)) :: ts).
    rewrite Ht, Htasks, Hterm, He, terminations_app, <-app_assoc.
    change (terminations [Terminate r]) with 1.
    split_and!; [done|by apply Forall_cons| |simpl; lia].
    rewrite Hreg, length_delete in Hlen by (by apply lookup_lt_is_Some_2).
    simpl. lia.
Qed.

(** C4 as stated: one batched broadcast.  It fails for the registry [a, x, b] in
    which [a] and [b] have missed a probe and [x] has answered: one sweep
    evicts [a] and [b] and calls [broadcastUserStatus] twice. *)
Lemma heartbeat_single_broadcast_counterexample :
  let st := run [Connection (Some "/?userId=a") 0; Connection (Some "/?userId=x") 0;
                 Connection (Some "/?userId=b") 0; HeartbeatTick; PongEvent 1]
                (initial []) in
  ¬ (0 < heartbeat_evicted st → heartbeat_broadcasts st = 1).
Proof. vm_compute. intros H. specialize (H (le_S _ _ (le_n 1))). discriminate. Qed.

(** C4, amended.  A heartbeat sweep calls [broadcastUserStatus] once for each
    entry it evicts, not once for the sweep: the suspended calls it adds are
    broadcasts, one per entry taken out of the registry and as many as its
    calls of [terminate]; a sweep that evicts no entry adds no broadcast. *)
Theorem heartbeat_broadcast_per_eviction (st : Server) :
  ∃ ts, tasks (heartbeat st) = tasks st ++ ts ∧
        Forall (λ t, is_broadcast t = true) ts ∧
        length ts = heartbeat_evicted st ∧
        heartbeat_broadcasts st = heartbeat_evicted st ∧
        terminations (effects (heartbeat st)) =
          terminations (effects st) + heartbeat_evicted st.
Proof.
  unfold heartbeat_evicted, heartbeat_broadcasts, heartbeat.
  destruct (heartbeat_loop_count (length (userSocket st)) 0 st)
    as (ts & Ht & Hb & Hlen & Hterm).
  exists ts. rewrite Ht, Hterm, broadcasts_app, (broadcasts_all ts Hb).
  split_and!; [done|done|lia..].
Qed.

(** ** A send that raises *)

Lemma send_loop_ok throws data l :
  Forall (λ r, throws r = false) l →
  send_loop throws data l = (map (λ r, Send r data) l, false).
Proof.
  induction 1 as [|r l Hr _ IH]; [done|]. simpl. by rewrite Hr, IH.
Qed.

Lemma send_loop_throws throws data l1 a l2 :
  Forall (λ r, throws r = false) l1 → throws a = true →
  send_loop throws data (l1 ++ a :: l2) = (map (λ r, Send r data) l1, true).
Proof.
  intros Hl Ha. induction Hl as [|r l Hr _ IH]; simpl; [by rewrite Ha|].
  by rewrite Hr, IH.
Qed.

Lemma new_effects_app st st' es : effects st' = effects st ++ es → new_effects st st' = es.
Proof. unfold new_effects. intros ->. by rewrite drop_app_length. Qed.

(** C5 as stated: the failure is isolated.  It fails for the registry
    [[0; 1]] when the send to socket 0 raises: socket 1 is sent nothing. *)
Lemma broadcast_send_isolation_counterexample :
  let st := run [Connection (Some "/?userId=u1") 0; Connection (Some "/?userId=u2") 0]
                (initial []) in
  let st' := step (Settle 3 true (λ r, Nat.eqb r 0)) st in
  userSocket st = [0; 1] ∧
  tasks st !! 3%nat = Some (AwaitUserFind ["u1"; "u2"]) ∧
  ¬ ∃ data, Send 1 data ∈ effects st'.
Proof.
  vm_compute. split_and!; [done..|].
  intros [data H%list_elem_of_singleton]. discriminate.
Qed.

(** C5, amended.  When the send to recipient [a] raises during a broadcast,
    the error is caught by the one handler that encloses the whole body of
    [broadcastUserStatus] and is logged; the loop ends there.  The
    recipients before [a] have been sent the message; a recipient [b] that
    comes after [a] is sent nothing by this broadcast.  Registry and sockets
    are as before: nothing is evicted. *)
Theorem broadcast_send_failure_ends_loop
    (online : list string) (found : list User) (throws : nat → bool)
    (st : Server) (l1 l2 : list nat) (a : nat) :
  userSocket st = l1 ++ a :: l2 →
  Forall (λ r, throws r = false) l1 →
  throws a = true →
  let data := userStatusMessage (usersWithStatus online found) in
  let st' := broadcastUserStatus_resume online (Some found) throws st in
  new_effects st st' =
    map (λ r, Send r data) l1 ++ [ConsoleError "Error broadcasting user status:"] ∧
  (∀ b msg, b ∈ l2 → b ∉ l1 → Send b msg ∉ new_effects st st') ∧
  userSocket st' = userSocket st ∧ sockets st' = sockets st.
Proof.
  intros Hreg Hl1 Ha data st'. subst st'. unfold broadcastUserStatus_resume.
  fold data. rewrite Hreg, (send_loop_throws _ _ _ _ _ Hl1 Ha).
  rewrite (new_effects_app st _ (map (λ r, Send r data) l1 ++
             [ConsoleError "Error broadcasting user status:"])) by done.
  split_and!; [done| |done..].
  intros b msg _ Hb [Hin|Hin%list_elem_of_singleton]%elem_of_app; [|done].
  apply list_elem_of_fmap in Hin as (r & [= -> _] & Hr). done.
Qed.

Lemma broadcast_send_failure_ends_loop_witness :
  let st := run [Connection (Some "/?userId=u1") 0; Connection (Some "/?userId=u2") 0]
                (initial []) in
  let st' := broadcastUserStatus_resume ["u1"; "u2"] (Some []) (λ r, Nat.eqb r 0) st in
  new_effects st st' = [ConsoleError "Error broadcasting user status:"] ∧
  (∀ b msg, b ∈ [1] → b ∉ [] → Send b msg ∉ new_effects st st') ∧
  userSocket st' = userSocket st ∧ sockets st' = sockets st.
Proof.
  apply (broadcast_send_failure_ends_loop ["u1"; "u2"] [] (λ r, Nat.eqb r 0) _ [] [1] 0).
  - reflexivity.
  - constructor.
  - reflexivity.
Defined.

(** ** A request without [userId] *)

(** C6 as stated: the refused connection is closed.  It fails for the
    request ["/"]: the listener returns at once, [terminate] is not called
    and the socket stays open. *)
Lemma rejected_connection_closed_counterexample :
  let st := step (Connection (Some "/") 0) (initial []) in
  requestUserId (Some "/") = None ∧
  ¬ (Terminate 0 ∈ effects st ∨ readyState <$> sockets st !! 0%nat ≠ Some OPEN).
Proof.
  vm_compute. split; [done|]. intros [H|H]; [|by apply H].
  by apply not_elem_of_nil in H.
Qed.

(** C6, amended.  For a request whose [userId] is missing or empty the
    ["connection"] listener returns at once: the registry, the directory,
    the suspended calls (no broadcast, no touch of [lastLogin]) and the
    effects are as before.  The socket is not closed: it is left open, with
    no [userId] and no listener. *)
Theorem connection_without_userId_is_ignored
    (url : option string) (now : Z) (st : Server) :
  requestUserId url = None ∨ requestUserId url = Some "" →
  let st' := step (Connection url now) st in
  userSocket st' = userSocket st ∧
  users st' = users st ∧
  tasks st' = tasks st ∧
  effects st' = effects st ∧
  sockets st' = sockets st ++ [mkExtWebSocket None None OPEN None false].
Proof.
  intros H. simpl. unfold connection. by destruct H as [-> | ->].
Qed.

Lemma connection_without_userId_is_ignored_witness :
  let st := run [Connection (Some "/?userId=u1") 0] (initial []) in
  let st' := step (Connection (Some "/?userId=") 7) st in
  userSocket st' = userSocket st ∧
  users st' = users st ∧
  tasks st' = tasks st ∧
  effects st' = effects st ∧
  sockets st' = sockets st ++ [mkExtWebSocket None None OPEN None false].
Proof.
  apply (connection_without_userId_is_ignored (Some "/?userId=") 7%Z).
  right. reflexivity.
Defined.

(** ** Removal by identity *)

Lemma unique_userIds_inj st r r' :
  unique_userIds st → r ∈ userSocket st → r' ∈ userSocket st →
  userIdAt (sockets st) r = userIdAt (sockets st) r' → r = r'.
Proof. apply NoDup_fmap_elem_inj. Qed.

(** Once the listener has run for [id], no entry carries [id]. *)
Lemma close_listener_absent id st :
  unique_userIds st → Some id ∉ registry_ids (close_listener id st).
Proof.
  intros Hu. unfold close_listener.
  destruct (findIndex (Some id) st) as [j|] eqn:E; [|by apply findIndex_None].
  change (registry_ids (broadcastUserStatus (splice j st)))
    with (registry_ids (splice j st)).
  rewrite registry_ids_splice.
  apply NoDup_delete_lookup; [done|by apply findIndex_ids].
Qed.

Lemma close_listener_noop id st :
  Some id ∉ registry_ids st → close_listener id st = st.
Proof. intros H%findIndex_None. unfold close_listener. by rewrite H. Qed.

Lemma close_listener_once id st :
  (length (userSocket st) ≤ S (length (userSocket (close_listener id st))))%nat ∧
  (broadcasts (tasks (close_listener id st)) ≤ S (broadcasts (tasks st)))%nat.
Proof.
  unfold close_listener. destruct (findIndex (Some id) st) as [j|] eqn:E; [|lia].
  apply findIndex_Some in E as (r & Hj & _).
  unfold broadcastUserStatus, spawn, splice.
  cbn [userSocket tasks with_tasks with_userSocket].
  rewrite length_delete, broadcasts_app by eauto.
  change (broadcasts [AwaitUserFind _]) with 1. lia.
Qed.

(** An entry that a heartbeat sweep has taken out leaves no entry with its
    identity behind. *)
Lemma heartbeat_evicted_absent st r id :
  Inv st → r ∈ userSocket st → userIdAt (sockets st) r = Some id →
  r ∉ userSocket (heartbeat st) → Some id ∉ registry_ids (heartbeat st).
Proof.
  intros HI Hin Hid Hout Habs.
  destruct (shrinks_heartbeat st) as [Hsame Hsub].
  apply list_elem_of_fmap in Habs as (r' & Hr' & Hin').
  rewrite (same_identities_userIdAt _ _ _ Hsame) in Hr'.
  assert (r' ∈ userSocket st) as Hin'' by (by eapply elem_of_sublist).
  assert (r = r') as <-; [|done].
  eapply unique_userIds_inj; [apply HI|done..|congruence].
Qed.

(** The first run of the listener for an identity that an entry carries
    takes out that entry and calls [broadcastUserStatus] once. *)
Lemma close_listener_removes id st r :
  unique_userIds st → r ∈ userSocket st → userIdAt (sockets st) r = Some id →
  let st1 := close_listener id st in
  (∃ i, userSocket st !! i = Some r ∧ userSocket st1 = delete i (userSocket st)) ∧
  (r ∉ userSocket st1) ∧
  length (userSocket st) = S (length (userSocket st1)) ∧
  sockets st1 = sockets st ∧ effects st1 = effects st ∧
  tasks st1 = tasks st ++ [AwaitUserFind (onlineUserIds st1)].
Proof.
  intros Hu Hr Hid. unfold close_listener.
  destruct (findIndex (Some id) st) as [j|] eqn:E.
  - apply findIndex_Some in E as (r' & Hj & Hid' & _).
    assert (r' = r) as ->.
    { eapply unique_userIds_inj; [done|by eapply list_elem_of_lookup_2|done|congruence]. }
    unfold broadcastUserStatus, spawn, splice.
    cbn [userSocket sockets effects tasks with_tasks with_userSocket].
    split_and!; [by exists j| | |done..].
    + apply NoDup_delete_lookup; [|done]. by eapply NoDup_fmap_1, Hu.
    + rewrite length_delete by eauto. apply lookup_lt_Some in Hj. lia.
  - apply findIndex_None in E. destruct E.
    apply list_elem_of_fmap. by exists r.
Qed.

(** C7.  In every state the server reaches, the removal by identity (the
    body of the ["close"] listener) run for a [userId] that an entry carries
    takes exactly that entry out of the registry and calls
    [broadcastUserStatus] once; run for a [userId] that no entry carries it
    does nothing.  Afterwards no entry carries the [userId], so a second run
    for the same [userId] does nothing at all: over the two runs the entry
    is removed once and at most one broadcast is called.  The same holds
    when the first removal was a heartbeat eviction: the ["close"] event of
    the evicted socket then changes neither the registry nor the suspended
    calls nor the effects. *)
Theorem removal_idempotent (st : Server) (id : string) :
  reachable st →
  let st1 := close_listener id st in
  let st2 := close_listener id st1 in
  (∀ r, r ∈ userSocket st → userIdAt (sockets st) r = Some id →
     (∃ i, userSocket st !! i = Some r ∧ userSocket st1 = delete i (userSocket st)) ∧
     (r ∉ userSocket st1) ∧
     length (userSocket st) = S (length (userSocket st1)) ∧
     sockets st1 = sockets st ∧ effects st1 = effects st ∧
     tasks st1 = tasks st ++ [AwaitUserFind (onlineUserIds st1)]) ∧
  (Some id ∉ registry_ids st → st1 = st) ∧
  (Some id ∉ registry_ids st1) ∧
  st2 = st1 ∧
  (length (userSocket st) ≤ S (length (userSocket st2)))%nat ∧
  (broadcasts (tasks st2) ≤ S (broadcasts (tasks st)))%nat ∧
  ∀ r, r ∈ userSocket st → userIdAt (sockets st) r = Some id →
       r ∉ userSocket (heartbeat st) →
       let st3 := step (CloseEvent r) (heartbeat st) in
       userSocket st3 = userSocket (heartbeat st) ∧ tasks st3 = tasks (heartbeat st) ∧
       effects st3 = effects (heartbeat st).
Proof.
  intros HI%Inv_reachable st1 st2.
  assert (st2 = st1) as Heq.
  { apply close_listener_noop, close_listener_absent, HI. }
  split. { intros r Hr Hid. by apply close_listener_removes; [apply HI|..]. }
  split; [apply close_listener_noop|].
  split; [apply close_listener_absent, HI|].
  split; [done|]. rewrite Heq. subst st1.
  split; [apply close_listener_once|]. split; [apply close_listener_once|].
  intros r Hin Hid Hout. simpl. unfold close_event.
  set (hb := heartbeat st) in *.
  set (st' := modify r (set_readyState CLOSED) hb).
  assert (Inv hb) as HIhb by (eapply shrinks_Inv; [apply shrinks_heartbeat|done]).
  assert (userSocket st' = userSocket hb ∧ tasks st' = tasks hb ∧
          effects st' = effects hb) as (Hreg & Htasks & Heff).
  { subst st'. by rewrite modify_userSocket, modify_tasks, modify_effects. }
  destruct (sockets st' !! r ≫= onClose) as [id'|] eqn:E; [|done].
  assert (id' = id) as ->.
  { assert (Inv st') as [_ _ Hl].
    { eapply shrinks_Inv; [|exact HIhb]. by apply shrinks_modify. }
    destruct (sockets st' !! r) as [o|] eqn:Ho; [|done]. simpl in E.
    pose proof (Hl r o id' Ho E) as Hu.
    assert (userIdAt (sockets st') r = Some id) as Hid'.
    { subst st'. erewrite same_identities_userIdAt
        by (by apply (same_identities_modify r (set_readyState CLOSED))).
      subst hb. erewrite same_identities_userIdAt by apply shrinks_heartbeat. done. }
    unfold userIdAt in Hid'. rewrite Ho in Hid'. simpl in Hid'. congruence. }
  rewrite close_listener_noop; [done|].
  subst st'. rewrite registry_ids_modify by done.
  by eapply heartbeat_evicted_absent.
Qed.

Lemma removal_idempotent_witness :
  let st := run [Connection (Some "/?userId=u1") 0; HeartbeatTick] (initial []) in
  let st1 := close_listener "u1" st in
  let st2 := close_listener "u1" st1 in
  (∀ r, r ∈ userSocket st → userIdAt (sockets st) r = Some "u1" →
     (∃ i, userSocket st !! i = Some r ∧ userSocket st1 = delete i (userSocket st)) ∧
     (r ∉ userSocket st1) ∧
     length (userSocket st) = S (length (userSocket st1)) ∧
     sockets st1 = sockets st ∧ effects st1 = effects st ∧
     tasks st1 = tasks st ++ [AwaitUserFind (onlineUserIds st1)]) ∧
  (Some "u1" ∉ registry_ids st → st1 = st) ∧
  (Some "u1" ∉ registry_ids st1) ∧
  st2 = st1 ∧
  (length (userSocket st) ≤ S (length (userSocket st2)))%nat ∧
  (broadcasts (tasks st2) ≤ S (broadcasts (tasks st)))%nat ∧
  ∀ r, r ∈ userSocket st → userIdAt (sockets st) r = Some "u1" →
       r ∉ userSocket (heartbeat st) →
       let st3 := step (CloseEvent r) (heartbeat st) in
       userSocket st3 = userSocket (heartbeat st) ∧ tasks st3 = tasks (heartbeat st) ∧
       effects st3 = effects (heartbeat st).
Proof.
  apply (removal_idempotent
           (run [Connection (Some "/?userId=u1") 0; HeartbeatTick] (initial [])) "u1").
  exists [], [Connection (Some "/?userId=u1") 0; HeartbeatTick]. reflexivity.
Defined.

(** In the state of the witness the entry of [u1] is registered: the first
    run takes it out and calls one broadcast, the second changes nothing. *)
Example removal_scenario :
  let st := run [Connection (Some "/?userId=u1") 0; HeartbeatTick] (initial []) in
  let st1 := close_listener "u1" st in
  userSocket st = [0] ∧ userSocket st1 = [] ∧
  broadcasts (tasks st1) = S (broadcasts (tasks st)) ∧
  close_listener "u1" st1 = st1.
Proof. vm_compute. done. Qed.

(** ** Settling a suspended call *)

Lemma settle_last t ok throws st ts :
  tasks st = ts ++ [t] →
  step (Settle (length ts) ok throws) st = resume t ok throws (with_tasks ts st).
Proof.
  intros H. simpl. rewrite H, list_lookup_middle by done.
  by rewrite delete_middle, app_nil_r.
Qed.

(** The element written for a document, field by field. *)
Lemma userWithStatus_fields online u :
  let v := userWithStatus online u in
  field_names v =
    ["_id"] ++ (if decide (username u = Undefined) then [] else ["username"]) ++
    (if decide (email u = Undefined) then [] else ["email"]) ++ ["online"] ∧
  get_field "_id" v = Some (JString (_id u)) ∧
  get_field "username" v = json_value (username u) ∧
  get_field "email" v = json_value (email u) ∧
  get_field "online" v = Some (JBool (bool_decide (_id u ∈ online))).
Proof.
  unfold userWithStatus.
  destruct (username u) as [| |name], (email u) as [| |mail]; by split_and!.
Qed.

Lemma send_loop_sends throws data l e :
  e ∈ (send_loop throws data l).1 → ∃ r, r ∈ l ∧ e = Send r data.
Proof.
  induction l as [|r l IH]; simpl; [by intros ?%not_elem_of_nil|].
  destruct (throws r); [by intros ?%not_elem_of_nil|].
  destruct (send_loop throws data l) as [es threw]. simpl in *.
  intros [->|Hin]%elem_of_cons.
  - exists r. split; [left|done].
  - destruct (IH Hin) as (r' & Hr' & ->). exists r'. split; [by right|done].
Qed.

(** A fulfilled broadcast sends nothing but the message computed from its
    snapshot and the directory. *)
Lemma settle_broadcast_sends k online throws st r msg :
  tasks st !! k = Some (AwaitUserFind online) →
  Send r msg ∈ new_effects st (step (Settle k true throws) st) →
  r ∈ userSocket st ∧ msg = userStatusMessage (usersWithStatus online (users st)).
Proof.
  intros Hk. simpl. rewrite Hk. simpl. unfold broadcastUserStatus_resume.
  cbn [users userSocket with_tasks].
  pose proof (send_loop_sends throws
    (userStatusMessage (usersWithStatus online (users st))) (userSocket st)) as Hs.
  destruct (send_loop _ _ _) as [es threw]. simpl in Hs.
  assert (Send r msg ∈ es →
          r ∈ userSocket st ∧ msg = userStatusMessage (usersWithStatus online (users st))).
  { intros (r' & Hr' & [= -> ->])%Hs. done. }
  destruct threw.
  - rewrite (new_effects_app _ _
      (es ++ [ConsoleError "Error broadcasting user status:"])) by done.
    intros [Hin|Hin%list_elem_of_singleton]%elem_of_app; [auto|done].
  - by rewrite (new_effects_app _ _ es).
Qed.

(** ** The reconciler *)

Lemma filter_partition_length {A} (f : A → bool) (l : list A) :
  length (List.filter f l) + length (List.filter (λ x, negb (f x)) l) = length l.
Proof. induction l as [|x l IH]; [done|]. simpl. destruct (f x); simpl; lia. Qed.

Lemma filter_negb_id {A} (f : A → bool) (l : list A) :
  List.filter f l = [] → List.filter (λ x, negb (f x)) l = l.
Proof.
  induction l as [|x l IH]; [done|]. simpl. destruct (f x); [done|].
  simpl. intros H. by rewrite IH.
Qed.

Lemma settle_inactive_find now st :
  let cutoff := (now - 2 * 60 * 1000)%Z in
  step (Settle (length (tasks st)) true (λ _, false)) (step (ReconcilerTick now) st) =
    if (0 <? length (List.filter (inactive cutoff) (users st)))%nat
    then spawn (AwaitDeleteMany cutoff) (with_tasks (tasks st) (deleteInactiveUsers now st))
    else with_tasks (tasks st) (deleteInactiveUsers now st).
Proof.
  intros cutoff.
  by rewrite (settle_last (AwaitInactiveFind cutoff) true _ _ (tasks st)).
Qed.

Lemma reconciler_run_nothing now st :
  List.filter (inactive (now - 2 * 60 * 1000)) (users st) = [] →
  let st' := reconciler_run now st in
  users st' = users st ∧ tasks st' = tasks st ∧ userSocket st' = userSocket st ∧
  sockets st' = sockets st ∧ effects st' = effects st.
Proof.
  intros Hnone. unfold reconciler_run, run. cbn [fold_left].
  rewrite settle_inactive_find, Hnone. cbn [length Nat.ltb Nat.leb].
  cbn [step tasks with_tasks]. by rewrite lookup_ge_None_2.
Qed.

Lemma reconciler_run_deletes now st :
  List.filter (inactive (now - 2 * 60 * 1000)) (users st) ≠ [] →
  let st' := reconciler_run now st in
  users st' = List.filter (λ u, negb (inactive (now - 2 * 60 * 1000) u)) (users st) ∧
  tasks st' = tasks st ++ [AwaitUserFind (onlineUserIds st)] ∧
  userSocket st' = userSocket st ∧ sockets st' = sockets st ∧ effects st' = effects st.
Proof.
  intros Hsome. unfold reconciler_run, run. cbn [fold_left].
  rewrite settle_inactive_find.
  destruct (List.filter _ (users st)) as [|u us] eqn:E; [done|].
  cbn [length Nat.ltb Nat.leb].
  rewrite (settle_last (AwaitDeleteMany (now - 2 * 60 * 1000)) true _ _ (tasks st))
    by reflexivity.
  cbn [resume]. unfold deleteInactiveUsers_deleted. done.
Qed.

Lemma elem_of_filter_active cutoff (l : list User) u :
  u ∈ List.filter (λ u, negb (inactive cutoff u)) l ↔ u ∈ l ∧ (cutoff ≤ lastLogin u)%Z.
Proof.
  rewrite !list_elem_of_In, List.filter_In. unfold inactive.
  rewrite negb_true_iff, Z.ltb_ge. done.
Qed.

Lemma filter_inactive_nil cutoff (l : list User) :
  List.filter (inactive cutoff) l = [] ↔ ∀ u, u ∈ l → (cutoff ≤ lastLogin u)%Z.
Proof.
  induction l as [|u l IH]; simpl.
  { split; [by intros _ u ?%not_elem_of_nil|done]. }
  unfold inactive at 1. destruct (Z.ltb_spec (lastLogin u) cutoff) as [Hlt|Hge].
  - split; [done|]. intros H. specialize (H u (list_elem_of_here _ _)). lia.
  - rewrite IH. split.
    + intros H u' [->|?]%elem_of_cons; auto.
    + intros H u' Hu'. apply H. by right.
Qed.

(** The query for inactive users is fulfilled, in any state. *)
Lemma settle_inactive_found k cutoff throws st :
  tasks st !! k = Some (AwaitInactiveFind cutoff) →
  let st' := step (Settle k true throws) st in
  users st' = users st ∧ userSocket st' = userSocket st ∧ sockets st' = sockets st ∧
  effects st' = effects st ∧
  ((∃ u, u ∈ users st ∧ (lastLogin u < cutoff)%Z) →
     tasks st' = delete k (tasks st) ++ [AwaitDeleteMany cutoff]) ∧
  ((∀ u, u ∈ users st → (cutoff ≤ lastLogin u)%Z) → tasks st' = delete k (tasks st)).
Proof.
  intros Hk. simpl. rewrite Hk. cbn [resume]. unfold deleteInactiveUsers_found.
  cbn [users with_tasks].
  destruct (List.filter (inactive cutoff) (users st)) as [|u0 us0] eqn:E;
    cbn [length Nat.ltb Nat.leb].
  - split_and!; [done..| |done].
    intros (u & Hu & Hlt). pose proof (proj1 (filter_inactive_nil _ _) E u Hu). lia.
  - split_and!; [done..|].
    intros H%filter_inactive_nil. by rewrite H in E.
Qed.

(** The deletion is fulfilled, in any state: the documents older than the
    cutoff at this moment go, and [broadcastUserStatus] is called. *)
Lemma settle_delete_many k cutoff throws st :
  tasks st !! k = Some (AwaitDeleteMany cutoff) →
  let st' := step (Settle k true throws) st in
  users st' = List.filter (λ u, negb (inactive cutoff u)) (users st) ∧
  userSocket st' = userSocket st ∧ sockets st' = sockets st ∧
  effects st' = effects st ∧
  tasks st' = delete k (tasks st) ++ [AwaitUserFind (onlineUserIds st)].
Proof. intros Hk. simpl. by rewrite Hk. Qed.

(** No message of a broadcast fulfilled in [st'] has an element for a
    document that is in [us] and not in the directory of [st'], when [_id]
    is a key of [us]. *)
Lemma broadcast_excludes (us : list User) st' k online throws r msg :
  NoDup (_id <$> us) → users st' `sublist_of` us →
  tasks st' !! k = Some (AwaitUserFind online) →
  Send r msg ∈ new_effects st' (step (Settle k true throws) st') →
  ∃ body, msg = userStatusMessage body ∧
          ∀ u v, u ∈ us → u ∉ users st' → v ∈ body →
                 get_field "_id" v ≠ Some (JString (_id u)).
Proof.
  intros Hkey Hsub Hk Hsend.
  destruct (settle_broadcast_sends _ _ _ _ _ _ Hk Hsend) as [_ ->].
  eexists. split; [done|].
  intros u v Hu Hgone (u' & -> & Hu')%list_elem_of_fmap.
  destruct (userWithStatus_fields online u') as (_ & -> & _).
  intros [= Hid]. destruct Hgone.
  assert (u' ∈ us) as Hin by (by eapply elem_of_sublist).
  by rewrite <-(NoDup_fmap_elem_inj _id us u' u Hkey Hin Hu Hid).
Qed.

Lemma filter_sublist {A} (f : A → bool) (l : list A) : List.filter f l `sublist_of` l.
Proof.
  induction l as [|x l IH]; [done|]. simpl.
  destruct (f x); [by apply sublist_skip|by apply sublist_cons].
Qed.

(** C8 as stated ties the broadcast to a deletion.  The call is guarded by
    what [User.find] returned: when the document it found is touched before
    [User.deleteMany] is fulfilled (here by the admission of [u3]), the run
    deletes nothing and calls [broadcastUserStatus] all the same. *)
Lemma reconciler_deletes_inactive_counterexample :
  let u3 := mkUser "u3" (Text "carol") (Text "carol@example.org") 0 in
  let quiet := λ _ : nat, false in
  let st0 := initial [u3] in
  let st := run [ReconcilerTick 300000; Settle 0 true quiet;
                 Connection (Some "/?userId=u3") 300000; Settle 1 true quiet] st0 in
  let st' := step (Settle 0 true quiet) st in
  tasks st = [AwaitDeleteMany 180000; AwaitUserFind ["u3"]] ∧
  users st = [mkUser "u3" (Text "carol") (Text "carol@example.org") 300000] ∧
  users st' = users st ∧
  length (users st') = length (users st0) ∧
  tasks st' = [AwaitUserFind ["u3"]; AwaitUserFind ["u3"]] ∧
  broadcasts (tasks st') = S (broadcasts (tasks st)).
Proof. vm_compute. done. Qed.

(** C8, amended.  A run of the reconciler at time [now] is the timer tick,
    which computes the cutoff [now] minus two minutes and queries for the
    documents whose [lastLogin] is before it, followed by two fulfilled
    calls, in whatever state they are fulfilled.  When the query finds no
    such document the run ends: nothing is deleted, nothing is broadcast.
    When it finds one, [deleteMany] is awaited; its fulfilment deletes every
    document whose [lastLogin] is then before the cutoff and no other,
    without looking at the registry, which it leaves as it is, and calls
    [broadcastUserStatus] once, whether or not a document was deleted.  In a
    run with no other event between its steps that is one broadcast when
    the run deleted a document and none otherwise; the broadcast of such a
    run, once fulfilled, sends every registered socket the list of the
    documents that are left.  A broadcast that is fulfilled after the
    deletion sends no element with the [_id] of a deleted document.  When
    either call is rejected the run logs the error and ends: it deletes
    nothing and broadcasts nothing. *)
Theorem reconciler_deletes_inactive (now : Z) (st : Server) :
  NoDup (_id <$> users st) →
  let cutoff := (now - 2 * 60 * 1000)%Z in
  let st' := reconciler_run now st in
  let deleted := (length (users st) - length (users st'))%nat in
  (∀ u, u ∈ users st' ↔ u ∈ users st ∧ (cutoff ≤ lastLogin u)%Z) ∧
  userSocket st' = userSocket st ∧
  sockets st' = sockets st ∧
  tasks st' = tasks st ++
    (if (0 <? deleted)%nat then [AwaitUserFind (onlineUserIds st)] else []) ∧
  (∀ k online throws r msg,
    tasks st' !! k = Some (AwaitUserFind online) →
    Send r msg ∈ new_effects st' (step (Settle k true throws) st') →
    ∃ us, msg = userStatusMessage us ∧
          ∀ u v, u ∈ users st → (lastLogin u < cutoff)%Z → v ∈ us →
                 get_field "_id" v ≠ Some (JString (_id u))) ∧
  ((0 < deleted)%nat → ∀ throws, Forall (λ r, throws r = false) (userSocket st) →
    new_effects st' (step (Settle (length (tasks st)) true throws) st') =
      map (λ r, Send r (userStatusMessage (usersWithStatus (onlineUserIds st) (users st'))))
          (userSocket st)) ∧
  tasks (step (ReconcilerTick now) st) = tasks st ++ [AwaitInactiveFind cutoff] ∧
  (∀ s k throws, tasks s !! k = Some (AwaitInactiveFind cutoff) →
     let s' := step (Settle k true throws) s in
     users s' = users s ∧ userSocket s' = userSocket s ∧ sockets s' = sockets s ∧
     effects s' = effects s ∧
     ((∃ u, u ∈ users s ∧ (lastLogin u < cutoff)%Z) →
        tasks s' = delete k (tasks s) ++ [AwaitDeleteMany cutoff]) ∧
     ((∀ u, u ∈ users s → (cutoff ≤ lastLogin u)%Z) → tasks s' = delete k (tasks s))) ∧
  (∀ s k throws, tasks s !! k = Some (AwaitDeleteMany cutoff) →
     let s' := step (Settle k true throws) s in
     (∀ u, u ∈ users s' ↔ u ∈ users s ∧ (cutoff ≤ lastLogin u)%Z) ∧
     userSocket s' = userSocket s ∧ sockets s' = sockets s ∧ effects s' = effects s ∧
     tasks s' = delete k (tasks s) ++ [AwaitUserFind (onlineUserIds s)] ∧
     (NoDup (_id <$> users s) →
      ∀ k' online throws' r msg,
        tasks s' !! k' = Some (AwaitUserFind online) →
        Send r msg ∈ new_effects s' (step (Settle k' true throws') s') →
        ∃ us, msg = userStatusMessage us ∧
              ∀ u v, u ∈ users s → (lastLogin u < cutoff)%Z → v ∈ us →
                     get_field "_id" v ≠ Some (JString (_id u)))) ∧
  (∀ s k throws t, tasks s !! k = Some t →
     t = AwaitInactiveFind cutoff ∨ t = AwaitDeleteMany cutoff →
     let s' := step (Settle k false throws) s in
     users s' = users s ∧ userSocket s' = userSocket s ∧ sockets s' = sockets s ∧
     tasks s' = delete k (tasks s) ∧
     effects s' = effects s ++ [ConsoleError "Error deleting inactive users:"]).
Proof.
  intros Hkey cutoff st' deleted.
  assert (users st' = List.filter (λ u, negb (inactive cutoff u)) (users st) ∧
          userSocket st' = userSocket st ∧ sockets st' = sockets st ∧
          effects st' = effects st ∧
          tasks st' = tasks st ++
            (if (0 <? deleted)%nat then [AwaitUserFind (onlineUserIds st)] else []))
    as (Husers & Hreg & Hsock & Heff & Htasks).
  { subst deleted st'.
    destruct (List.filter (inactive cutoff) (users st)) as [|u0 us0] eqn:E.
    - destruct (reconciler_run_nothing now st E) as (Hu & Ht & Hr & Hs & He).
      rewrite Hu, Ht, Nat.sub_diag, app_nil_r.
      by rewrite (filter_negb_id _ _ E).
    - destruct (reconciler_run_deletes now st) as (Hu & Ht & Hr & Hs & He).
      { fold cutoff. by rewrite E. }
      rewrite Hu, Ht. split_and!; [done..|].
      pose proof (filter_partition_length (inactive cutoff) (users st)) as Hlen.
      fold cutoff. rewrite E in Hlen. simpl in Hlen.
      destruct (Nat.ltb_spec 0 (length (users st) -
        length (List.filter (λ u, negb (inactive cutoff u)) (users st)))); [done|lia]. }
  assert (∀ s s' : Server,
            users s' = List.filter (λ u, negb (inactive cutoff u)) (users s) →
            NoDup (_id <$> users s) →
            ∀ k online throws r msg,
              tasks s' !! k = Some (AwaitUserFind online) →
              Send r msg ∈ new_effects s' (step (Settle k true throws) s') →
              ∃ us, msg = userStatusMessage us ∧
                    ∀ u v, u ∈ users s → (lastLogin u < cutoff)%Z → v ∈ us →
                           get_field "_id" v ≠ Some (JString (_id u))) as Hexcl.
  { intros s s' Hus Hnd k online throws r msg Hk Hsend.
    destruct (broadcast_excludes (users s) s' k online throws r msg)
      as (body & -> & Hbody); [done|by rewrite Hus; apply filter_sublist|done..|].
    exists body. split; [done|]. intros u v Hu Hold. apply Hbody; [done|].
    rewrite Hus. intros [_ ?]%elem_of_filter_active. lia. }
  split_and!; [|done..|by eapply Hexcl| |done| | |].
  - intros u. rewrite Husers. apply elem_of_filter_active.
  - intros Hpos throws Hthrows.
    destruct (0 <? deleted)%nat eqn:E; [|apply Nat.ltb_ge in E; lia].
    apply new_effects_app.
    rewrite (settle_last (AwaitUserFind (onlineUserIds st)) true throws st' (tasks st))
      by done.
    cbn [resume]. unfold broadcastUserStatus_resume.
    cbn [users userSocket effects with_tasks]. rewrite Hreg.
    by rewrite (send_loop_ok _ _ _ Hthrows).
  - intros s k throws Hk. by apply settle_inactive_found.
  - intros s k throws Hk s'.
    destruct (settle_delete_many k cutoff throws s Hk)
      as (Hus & Hr & Hs & He & Ht). fold s' in Hus, Hr, Hs, He, Ht.
    split_and!; [|done..|by eapply Hexcl].
    intros u. rewrite Hus. apply elem_of_filter_active.
  - intros s k throws t Hk Ht. simpl. rewrite Hk. by destruct Ht as [->| ->].
Qed.

Lemma reconciler_deletes_inactive_witness :
  let u3 := mkUser "u3" (Text "carol") (Text "carol@example.org") 0 in
  let u4 := mkUser "u4" (Text "dave") (Text "dave@example.org") 290000 in
  let st := run [Connection (Some "/?userId=u3") 0] (initial [u3; u4]) in
  let cutoff := (300000 - 2 * 60 * 1000)%Z in
  let st' := reconciler_run 300000 st in
  let deleted := (length (users st) - length (users st'))%nat in
  (∀ u, u ∈ users st' ↔ u ∈ users st ∧ (cutoff ≤ lastLogin u)%Z) ∧
  userSocket st' = userSocket st ∧
  sockets st' = sockets st ∧
  tasks st' = tasks st ++
    (if (0 <? deleted)%nat then [AwaitUserFind (onlineUserIds st)] else []) ∧
  (∀ k online throws r msg,
    tasks st' !! k = Some (AwaitUserFind online) →
    Send r msg ∈ new_effects st' (step (Settle k true throws) st') →
    ∃ us, msg = userStatusMessage us ∧
          ∀ u v, u ∈ users st → (lastLogin u < cutoff)%Z → v ∈ us →
                 get_field "_id" v ≠ Some (JString (_id u))) ∧
  ((0 < deleted)%nat → ∀ throws, Forall (λ r, throws r = false) (userSocket st) →
    new_effects st' (step (Settle (length (tasks st)) true throws) st') =
      map (λ r, Send r (userStatusMessage (usersWithStatus (onlineUserIds st) (users st'))))
          (userSocket st)) ∧
  tasks (step (ReconcilerTick 300000) st) = tasks st ++ [AwaitInactiveFind cutoff] ∧
  (∀ s k throws, tasks s !! k = Some (AwaitInactiveFind cutoff) →
     let s' := step (Settle k true throws) s in
     users s' = users s ∧ userSocket s' = userSocket s ∧ sockets s' = sockets s ∧
     effects s' = effects s ∧
     ((∃ u, u ∈ users s ∧ (lastLogin u < cutoff)%Z) →
        tasks s' = delete k (tasks s) ++ [AwaitDeleteMany cutoff]) ∧
     ((∀ u, u ∈ users s → (cutoff ≤ lastLogin u)%Z) → tasks s' = delete k (tasks s))) ∧
  (∀ s k throws, tasks s !! k = Some (AwaitDeleteMany cutoff) →
     let s' := step (Settle k true throws) s in
     (∀ u, u ∈ users s' ↔ u ∈ users s ∧ (cutoff ≤ lastLogin u)%Z) ∧
     userSocket s' = userSocket s ∧ sockets s' = sockets s ∧ effects s' = effects s ∧
     tasks s' = delete k (tasks s) ++ [AwaitUserFind (onlineUserIds s)] ∧
     (NoDup (_id <$> users s) →
      ∀ k' online throws' r msg,
        tasks s' !! k' = Some (AwaitUserFind online) →
        Send r msg ∈ new_effects s' (step (Settle k' true throws') s') →
        ∃ us, msg = userStatusMessage us ∧
              ∀ u v, u ∈ users s → (lastLogin u < cutoff)%Z → v ∈ us →
                     get_field "_id" v ≠ Some (JString (_id u)))) ∧
  (∀ s k throws t, tasks s !! k = Some t →
     t = AwaitInactiveFind cutoff ∨ t = AwaitDeleteMany cutoff →
     let s' := step (Settle k false throws) s in
     users s' = users s ∧ userSocket s' = userSocket s ∧ sockets s' = sockets s ∧
     tasks s' = delete k (tasks s) ∧
     effects s' = effects s ++ [ConsoleError "Error deleting inactive users:"]).
Proof.
  apply (reconciler_deletes_inactive 300000
           (run [Connection (Some "/?userId=u3") 0]
              (initial [mkUser "u3" (Text "carol") (Text "carol@example.org") 0;
                        mkUser "u4" (Text "dave") (Text "dave@example.org") 290000]))).
  apply (bool_decide_unpack _). vm_compute. exact I.
Defined.

(** The scenario of the specification: [u3] was last seen five minutes ago
    and is connected; the run deletes it and the broadcast of the run lists
    [u4] only. *)
Example reconciler_scenario :
  let u3 := mkUser "u3" (Text "carol") (Text "carol@example.org") 0 in
  let u4 := mkUser "u4" (Text "dave") (Text "dave@example.org") 290000 in
  let st := run [Connection (Some "/?userId=u3") 0] (initial [u3; u4]) in
  let st' := reconciler_run 300000 st in
  users st' = [u4] ∧ userSocket st' = [0] ∧
  new_effects st' (step (Settle 2 true (λ _, false)) st') =
    [Send 0 (JObject [("type", JString "user-status");
                      ("users", JArray [JObject [("_id", JString "u4");
                                                 ("username", JString "dave");
                                                 ("email", JString "dave@example.org");
                                                 ("online", JBool false)]])])].
Proof. vm_compute. done. Qed.

(** ** The broadcast message *)

Lemma elem_of_onlineUserIds st id :
  id ∈ onlineUserIds st ↔
    id ≠ "" ∧ ∃ r, r ∈ userSocket st ∧ userIdAt (sockets st) r = Some id.
Proof.
  unfold onlineUserIds. rewrite list_elem_of_omap. split.
  - intros (r & Hr & H). destruct (userIdAt (sockets st) r) as [s|] eqn:E; [|done].
    simpl in H. destruct (String.eqb_spec s ""); simplify_eq/=. eauto.
  - intros (Hne & r & Hr & Hid). exists r. split; [done|]. rewrite Hid. simpl.
    by destruct (String.eqb_spec id "").
Qed.

(** C9 as stated fails on the name of the identity field, which is [_id];
    on a document without [username], whose element has three fields,
    because [JSON.stringify] leaves out a property whose value is
    [undefined]; and on a broadcast whose directory query is rejected, which
    sends nothing to the registered socket. *)
Lemma broadcast_message_shape_counterexample :
  let ann := mkUser "u1" (Text "ann") (Text "ann@example.org") 0 in
  let bob := mkUser "u2" Undefined (Text "bob@example.org") 0 in
  let st := run [Connection (Some "/?userId=u1") 0] (initial [ann; bob]) in
  let first := JObject [("_id", JString "u1"); ("username", JString "ann");
                        ("email", JString "ann@example.org"); ("online", JBool true)] in
  let second := JObject [("_id", JString "u2"); ("email", JString "bob@example.org");
                         ("online", JBool false)] in
  userSocket st = [0] ∧
  tasks st !! 1%nat = Some (AwaitUserFind ["u1"]) ∧
  new_effects st (step (Settle 1 true (λ _, false)) st) =
    [Send 0 (JObject [("type", JString "user-status");
                      ("users", JArray [first; second])])] ∧
  field_names first ≠ ["id"; "username"; "email"; "online"] ∧
  get_field "id" first = None ∧
  field_names second = ["_id"; "email"; "online"] ∧
  get_field "username" second = None ∧
  ¬ ∃ msg, Send 0 msg ∈ new_effects st (step (Settle 1 false (λ _, false)) st).
Proof.
  vm_compute. split_and!; [done..|].
  intros [msg H%list_elem_of_singleton]. discriminate.
Qed.

(** C9, amended.  A broadcast whose directory query is fulfilled and in
    which no send raises sends, to each socket that is registered when the
    query is fulfilled, one message [{ type: "user-status", users }]; [users]
    has one element per document.  An element has the field [_id], the field
    [username] when the document has a [username], the field [email] when
    the document has an [email], and the field [online], in this order and
    no other; so it has exactly the four fields when the document has both.
    [online] tells whether the [_id] of the document is in the snapshot of
    registry identities taken when [broadcastUserStatus] was called: the
    non-empty [userId]s of the entries registered then. *)
Theorem broadcast_message_shape
    (st : Server) (k : nat) (online : list string) (throws : nat → bool) :
  tasks st !! k = Some (AwaitUserFind online) →
  Forall (λ r, throws r = false) (userSocket st) →
  let st' := step (Settle k true throws) st in
  let body := usersWithStatus online (users st) in
  new_effects st st' =
    map (λ r, Send r (JObject [("type", JString "user-status"); ("users", JArray body)]))
        (userSocket st) ∧
  Forall2 (λ u v,
      field_names v =
        ["_id"] ++ (if decide (username u = Undefined) then [] else ["username"]) ++
        (if decide (email u = Undefined) then [] else ["email"]) ++ ["online"] ∧
      get_field "_id" v = Some (JString (_id u)) ∧
      get_field "username" v = json_value (username u) ∧
      get_field "email" v = json_value (email u) ∧
      get_field "online" v = Some (JBool (bool_decide (_id u ∈ online))) ∧
      (username u ≠ Undefined → email u ≠ Undefined →
       field_names v = ["_id"; "username"; "email"; "online"]))
    (users st) body ∧
  ∀ st0,
    tasks (broadcastUserStatus st0) = tasks st0 ++ [AwaitUserFind (onlineUserIds st0)] ∧
    ∀ id, id ∈ onlineUserIds st0 ↔
            id ≠ "" ∧ ∃ r, r ∈ userSocket st0 ∧ userIdAt (sockets st0) r = Some id.
Proof.
  intros Hk Hthrows st' body. split_and!.
  - subst st'. simpl. rewrite Hk. simpl. unfold broadcastUserStatus_resume.
    cbn [users userSocket with_tasks]. rewrite (send_loop_ok _ _ _ Hthrows).
    by apply new_effects_app.
  - subst body. unfold usersWithStatus. apply Forall2_fmap_r.
    apply Forall_Forall2_diag, Forall_forall. intros u _.
    destruct (userWithStatus_fields online u) as (Hn & Hi & Hu & He & Ho).
    split_and!; [done..|]. intros Hname Hmail. rewrite Hn.
    by destruct (decide (username u = Undefined)), (decide (email u = Undefined)).
  - intros st0. split; [done|]. apply elem_of_onlineUserIds.
Qed.

Lemma broadcast_message_shape_witness :
  let ann := mkUser "u1" (Text "ann") (Text "ann@example.org") 0 in
  let bob := mkUser "u2" Undefined (Text "bob@example.org") 0 in
  let st := run [Connection (Some "/?userId=u1") 0] (initial [ann; bob]) in
  let st' := step (Settle 1 true (λ _, false)) st in
  let body := usersWithStatus ["u1"] (users st) in
  new_effects st st' =
    map (λ r, Send r (JObject [("type", JString "user-status"); ("users", JArray body)]))
        (userSocket st) ∧
  Forall2 (λ u v,
      field_names v =
        ["_id"] ++ (if decide (username u = Undefined) then [] else ["username"]) ++
        (if decide (email u = Undefined) then [] else ["email"]) ++ ["online"] ∧
      get_field "_id" v = Some (JString (_id u)) ∧
      get_field "username" v = json_value (username u) ∧
      get_field "email" v = json_value (email u) ∧
      get_field "online" v = Some (JBool (bool_decide (_id u ∈ ["u1"]))) ∧
      (username u ≠ Undefined → email u ≠ Undefined →
       field_names v = ["_id"; "username"; "email"; "online"]))
    (users st) body ∧
  ∀ st0,
    tasks (broadcastUserStatus st0) = tasks st0 ++ [AwaitUserFind (onlineUserIds st0)] ∧
    ∀ id, id ∈ onlineUserIds st0 ↔
            id ≠ "" ∧ ∃ r, r ∈ userSocket st0 ∧ userIdAt (sockets st0) r = Some id.
Proof.
  apply (broadcast_message_shape
           (run [Connection (Some "/?userId=u1") 0]
              (initial [mkUser "u1" (Text "ann") (Text "ann@example.org") 0;
                        mkUser "u2" Undefined (Text "bob@example.org") 0]))
           1 ["u1"] (λ _, false)).
  - reflexivity.
  - vm_compute. repeat constructor.
Defined.

(** ** Entries whose transport is not open *)


(** A slot without a socket object is passed over by the heartbeat. *)
Lemma heartbeat_visit_undefined r st :
  sockets st !! r = None → heartbeat_visit r st = st.
Proof. intros H. unfold heartbeat_visit. by rewrite H. Qed.



(** The staleness sweep keeps the slots that hold an open socket, in
    order, and nothing else. *)
Lemma sweep_loop_filter (n : nat) st :
  (n ≤ length (userSocket st))%nat →
  userSocket (sweep_loop n st) =
    List.filter (open_at (sockets st)) (take n (userSocket st)) ++ drop n (userSocket st) ∧
  sockets (sweep_loop n st) = sockets st.
Proof.
  revert st. induction n as [|n IH]; intros st Hn; simpl.
  { by rewrite drop_0. }
  destruct (lookup_lt_is_Some_2 (userSocket st) n) as [r Hr]; [lia|].
  assert (sweep_visit n st =
            if open_at (sockets st) r then st else splice n st) as ->.
  { unfold sweep_visit, open_at. rewrite Hr. simpl.
    destruct (sockets st !! r) as [o|]; [|done].
    by destruct (bool_decide (readyState o = OPEN)). }
  assert (length (take n (userSocket st)) = n) as Hlen by (rewrite length_take; lia).
  rewrite (take_S_r _ _ _ Hr), List.filter_app. cbn [List.filter].
  destruct (open_at (sockets st) r).
  - destruct (IH st) as [-> ->]; [lia|]. split; [|done].
    by rewrite (drop_S _ _ _ Hr), <-app_assoc.
  - destruct (IH (splice n st)) as [-> ->].
    { simpl. rewrite length_delete by eauto. lia. }
    split; [|done]. simpl. rewrite app_nil_r, delete_take_drop.
    by rewrite take_app_length', drop_app_length'.
Qed.

Lemma staleness_sweep_userSocket st :
  userSocket (staleness_sweep st) = List.filter (open_at (sockets st)) (userSocket st).
Proof.
  unfold staleness_sweep.
  destruct (sweep_loop_filter (length (userSocket st)) st) as [Hreg _]; [done|].
  rewrite take_ge, drop_all, app_nil_r in Hreg by done.
  by destruct (_ <? _)%nat.
Qed.

(** * Further properties *)

(** ** The [userId] of a request *)

Lemma append_cons (c : ascii) (s t : string) : String c s +:+ t = String c (s +:+ t).
Proof. reflexivity. Qed.

Lemma append_empty_r (s : string) : s +:+ "" = s.
Proof. induction s as [|c s IH]; [done|]. by rewrite append_cons, IH. Qed.

Lemma append_assoc (s1 s2 s3 : string) : (s1 +:+ s2) +:+ s3 = s1 +:+ (s2 +:+ s3).
Proof. induction s1 as [|c s1 IH]; [done|]. by rewrite !append_cons, IH. Qed.

Lemma split_from_plain (cur s : string) :
  has_char "?" s = false → split_from "?userId=" 0 cur s = [cur +:+ s].
Proof.
  revert cur. induction s as [|c s IH]; intros cur Hs.
  { simpl. by rewrite append_empty_r. }
  simpl in Hs. destruct (Ascii.eqb_spec c "?") as [|Hc]; [done|].
  cbn [split_from String.prefix].
  destruct (ascii_dec "?" c) as [<-|_]; [done|].
  rewrite IH by done. by rewrite append_assoc.
Qed.

Lemma split_from_marker (cur p t : string) :
  has_char "?" p = false →
  split_from "?userId=" 0 cur (p +:+ "?userId=" +:+ t) =
    (cur +:+ p) :: split_from "?userId=" 0 "" t.
Proof.
  revert cur. induction p as [|c p IH]; intros cur Hp.
  { rewrite append_empty_r. by destruct t. }
  simpl in Hp. destruct (Ascii.eqb_spec c "?") as [|Hc]; [done|].
  rewrite append_cons. cbn [split_from String.prefix].
  destruct (ascii_dec "?" c) as [<-|_]; [done|].
  rewrite IH by done. by rewrite append_assoc.
Qed.

(** X1.  A request URL made of a path without ['?'], the marker
    ["?userId="] and an identity without ['?'] yields that identity; when
    the identity is not empty the connection is admitted under it: the new
    socket is registered and carries it as [userId]. *)
Theorem requestUserId_round_trip (path id : string) (now : Z) (st : Server) :
  has_char "?" path = false → has_char "?" id = false →
  requestUserId (Some (path +:+ "?userId=" +:+ id)) = Some id ∧
  (id ≠"" →
   let ws := length (sockets st) in
   let st' := step (Connection (Some (path +:+ "?userId=" +:+ id)) now) st in
   ws ∈ userSocket st' ∧ userId <$> sockets st' !! ws = Some (Some id)).
Proof.
  intros Hp Hid.
  assert (requestUserId (Some (path +:+ "?userId=" +:+ id)) = Some id) as Hreq.
  { unfold requestUserId, split. simpl.
    by rewrite split_from_marker, split_from_plain. }
  split; [done|]. intros Hne ws st'. subst st'. simpl.
  assert (truthy (Some id) = true) as Ht.
  { simpl. by destruct (String.eqb_spec id ""). }
  split.
  - rewrite (connection_userSocket _ _ id) by done.
    apply elem_of_app. right. constructor.
  - pose proof (connection_userIdAt _ now id st ws Hreq Ht) as Hu.
    pose proof (shrinks_replace_existing id (accepted id st)) as [Hs _].
    rewrite (same_identities_userIdAt _ _ _ Hs), accepted_userIdAt_new in Hu.
    unfold userIdAt in Hu.
    destruct (sockets (connection _ now st) !! ws) as [o|]; simpl in *; congruence.
Qed.

Lemma requestUserId_round_trip_witness :
  requestUserId (Some ("/" +:+ "?userId=" +:+ "u1")) = Some "u1" ∧
  ("u1" ≠ "" →
   let ws := length (sockets (initial [])) in
   let st' := step (Connection (Some ("/" +:+ "?userId=" +:+ "u1")) 0) (initial []) in
   ws ∈ userSocket st' ∧ userId <$> sockets st' !! ws = Some (Some "u1")).
Proof.
  apply (requestUserId_round_trip "/" "u1" 0 (initial [])); reflexivity.
Defined.

(** X2.  A request URL without ['?'] carries no [userId], and one that ends
    at the marker carries the empty [userId]; either way the connection
    leaves the registry, the suspended calls and the effects as they are. *)
Theorem requestUserId_absent_or_empty (path : string) (now : Z) (st : Server) :
  has_char "?" path = false →
  requestUserId (Some path) = None ∧
  requestUserId (Some (path +:+ "?userId=")) = Some "" ∧
  ∀ url, url = path ∨ url = path +:+ "?userId=" →
    let st' := step (Connection (Some url) now) st in
    userSocket st' = userSocket st ∧ tasks st' = tasks st ∧ effects st' = effects st.
Proof.
  intros Hp.
  assert (requestUserId (Some path) = None) as H1.
  { unfold requestUserId, split. simpl. by rewrite split_from_plain. }
  assert (requestUserId (Some (path +:+ "?userId=")) = Some "") as H2.
  { unfold requestUserId, split. simpl.
    change (path +:+ "?userId=") with (path +:+ "?userId=" +:+ "").
    by rewrite split_from_marker. }
  split_and!; [done..|].
  intros url [-> | ->]; simpl; unfold connection; by rewrite ?H1, ?H2.
Qed.

Lemma requestUserId_absent_or_empty_witness :
  requestUserId (Some "/chat") = None ∧
  requestUserId (Some ("/chat" +:+ "?userId=")) = Some "" ∧
  ∀ url, url = "/chat" ∨ url = "/chat" +:+ "?userId=" →
    let st' := step (Connection (Some url) 0) (initial []) in
    userSocket st' = userSocket (initial []) ∧ tasks st' = tasks (initial []) ∧
    effects st' = effects (initial []).
Proof.
  apply (requestUserId_absent_or_empty "/chat" 0 (initial [])). reflexivity.
Defined.

(** ** Registered sockets are admitted sockets *)

Lemma same_admission_refl ws : same_admission ws ws.
Proof. by split_and!. Qed.

Lemma same_admission_trans ws1 ws2 ws3 :
  same_admission ws1 ws2 → same_admission ws2 ws3 → same_admission ws1 ws3.
Proof.
  intros (H1 & H2 & H3 & H4) (H1' & H2' & H3' & H4').
  split_and!; [congruence..|auto].
Qed.

Lemma same_admission_admitted ws ws' : same_admission ws ws' → admitted ws → admitted ws'.
Proof.
  intros (H1 & H2 & H3 & H4) (id & Hne & Hu & Hc & Hp & Ha).
  exists id. split_and!; [done|congruence..|auto].
Qed.

Lemma evolves_refl st : evolves st st.
Proof. split; [|done]. intros r ws ?. exists ws. split; [done|apply same_admission_refl]. Qed.

Lemma evolves_trans st1 st2 st3 : evolves st1 st2 → evolves st2 st3 → evolves st1 st3.
Proof.
  intros [H1 S1] [H2 S2]. split; [|by etrans].
  intros r ws Hr. destruct (H1 r ws Hr) as (ws2 & Hr2 & Ha2).
  destruct (H2 r ws2 Hr2) as (ws3 & Hr3 & Ha3).
  exists ws3. split; [done|by eapply same_admission_trans].
Qed.

Lemma evolves_same st st' :
  sockets st' = sockets st → userSocket st' `sublist_of` userSocket st → evolves st st'.
Proof.
  intros Hs Hr. split; [|done]. intros r ws ?. exists ws.
  split; [by rewrite Hs|apply same_admission_refl].
Qed.

Lemma evolves_modify r f st :
  (∀ ws, same_admission ws (f ws)) → evolves st (modify r f st).
Proof.
  intros Hf. split; [|by rewrite modify_userSocket].
  intros r' ws Hr'. rewrite lookup_modify. case_decide; rewrite Hr'; simpl.
  - exists (f ws). eauto.
  - exists ws. split; [done|apply same_admission_refl].
Qed.

Lemma evolves_terminate r st : evolves st (terminate r st).
Proof.
  unfold terminate.
  eapply evolves_trans; [|by apply evolves_same].
  apply evolves_modify. intros ws. case_decide; by split_and!.
Qed.

Lemma evolves_splice i st : evolves st (splice i st).
Proof. apply evolves_same; [done|apply sublist_delete]. Qed.

Lemma evolves_broadcast st : evolves st (broadcastUserStatus st).
Proof. by apply evolves_same. Qed.

Lemma evolves_close_event r st : evolves st (close_event r st).
Proof.
  unfold close_event.
  eapply evolves_trans; [apply (evolves_modify r (set_readyState CLOSED))|].
  { intros ws. by split_and!. }
  destruct (_ ≫= onClose); [|apply evolves_refl].
  unfold close_listener. destruct (findIndex _ _); [|apply evolves_refl].
  eapply evolves_trans; [apply evolves_splice|apply evolves_broadcast].
Qed.

Lemma evolves_pong_event r st : evolves st (pong_event r st).
Proof.
  unfold pong_event. destruct (sockets st !! r) as [o|]; [|apply evolves_refl].
  destruct (onPong o); [|apply evolves_refl].
  apply evolves_modify. intros ws. split_and!; [done..|]. by eexists.
Qed.

Lemma evolves_heartbeat_visit r st : evolves st (heartbeat_visit r st).
Proof.
  unfold heartbeat_visit. destruct (sockets st !! r) as [ws|]; [|apply evolves_refl].
  destruct (negb _); [apply evolves_refl|].
  destruct (negb _).
  - eapply evolves_trans; [apply evolves_terminate|].
    destruct (findIndex _ _); [|apply evolves_refl].
    eapply evolves_trans; [apply evolves_splice|apply evolves_broadcast].
  - eapply evolves_trans; [apply (evolves_modify r (set_isAlive false))|].
    { intros o. split_and!; [done..|]. by eexists. }
    by apply evolves_same.
Qed.

Lemma evolves_heartbeat_loop n k st : evolves st (heartbeat_loop n k st).
Proof.
  revert k st. induction n as [|n IH]; intros k st; simpl; [apply evolves_refl|].
  destruct (userSocket st !! k); [|apply IH].
  eapply evolves_trans; [apply evolves_heartbeat_visit|apply IH].
Qed.

Lemma evolves_sweep_loop n st : evolves st (sweep_loop n st).
Proof.
  revert st. induction n as [|n IH]; intros st; simpl; [apply evolves_refl|].
  eapply evolves_trans; [|apply IH].
  unfold sweep_visit. destruct (_ ≫= _); [|apply evolves_splice].
  destruct (negb _); [apply evolves_splice|apply evolves_refl].
Qed.

Lemma evolves_resume t ok throws st : evolves st (resume t ok throws st).
Proof.
  destruct t; simpl.
  - unfold updateUserLastLogin_resume. destruct ok; by apply evolves_same.
  - unfold broadcastUserStatus_resume. destruct ok; [|by apply evolves_same].
    destruct (send_loop _ _ _) as [es []]; by apply evolves_same.
  - unfold deleteInactiveUsers_found. destruct ok; [|by apply evolves_same].
    destruct (_ <? _)%nat; by apply evolves_same.
  - unfold deleteInactiveUsers_deleted. destruct ok; by apply evolves_same.
Qed.

Lemma evolves_step e st :
  (∀ url now, e ≠ Connection url now) → evolves st (step e st).
Proof.
  intros He. destruct e as [url now|r|r|r rs| | |now|k ok throws]; simpl.
  - by destruct (He url now).
  - apply evolves_close_event.
  - apply evolves_pong_event.
  - apply evolves_modify. intros ws. by split_and!.
  - apply evolves_heartbeat_loop.
  - unfold staleness_sweep. destruct (_ <? _)%nat.
    + eapply evolves_trans; [apply evolves_sweep_loop|apply evolves_broadcast].
    + apply evolves_sweep_loop.
  - by apply evolves_same.
  - destruct (tasks st !! k); [|apply evolves_refl].
    eapply evolves_trans; [|apply evolves_resume]. by apply evolves_same.
Qed.

Lemma evolves_admitted st st' :
  evolves st st' → registry_admitted st → registry_admitted st'.
Proof.
  intros [He Hs]. unfold registry_admitted. rewrite !Forall_forall.
  intros Ha r Hr. destruct (Ha r) as (ws & Hws & Hadm); [by eapply elem_of_sublist|].
  destruct (He r ws Hws) as (ws' & Hws' & Hsame).
  exists ws'. split; [done|by eapply same_admission_admitted].
Qed.

Lemma evolves_replace_existing id st : evolves st (replace_existing id st).
Proof.
  unfold replace_existing. destruct (findIndex _ _) as [j|]; [|apply evolves_refl].
  eapply evolves_trans; [|apply evolves_splice].
  destruct (userSocket st !! j) as [r|]; [|apply evolves_refl].
  destruct (sockets st !! r); [apply evolves_terminate|apply evolves_refl].
Qed.

Lemma accepted_lookup_new id st :
  sockets (accepted id st) !! length (sockets st) =
    Some (set_isAlive true (set_userId id newSocket)).
Proof.
  unfold accepted. rewrite lookup_modify_eq. simpl.
  by rewrite lookup_app_r, Nat.sub_diag.
Qed.

Lemma truthy_nonempty id : truthy (Some id) = true → id ≠ "".
Proof. simpl. by destruct (String.eqb_spec id ""). Qed.

Lemma registry_admitted_connection url now st :
  registry_admitted st → registry_admitted (connection url now st).
Proof.
  intros Ha. unfold connection.
  assert (registry_admitted (with_sockets (sockets st ++ [newSocket]) st)) as Ha'.
  { unfold registry_admitted in *. simpl. eapply Forall_impl; [exact Ha|].
    intros r (ws & Hws & Hadm). exists ws. split; [by apply lookup_app_l_Some|done]. }
  destruct (requestUserId url) as [id|]; [|done].
  destruct (truthy (Some id)) eqn:Ht; [|done].
  rewrite admit_connection_unfold. fold (accepted id st).
  pose proof (evolves_replace_existing id (accepted id st)) as [He Hsub].
  set (st1 := replace_existing id (accepted id st)) in *.
  cbn zeta. unfold registry_admitted. rewrite modify_userSocket.
  cbn [userSocket broadcastUserStatus updateUserLastLogin spawn with_tasks with_userSocket].
  apply Forall_app. split.
  - apply Forall_forall. intros r Hr.
    assert (r ∈ userSocket st) as Hr'.
    { rewrite <-(accepted_userSocket id). by eapply elem_of_sublist. }
    unfold registry_admitted in Ha. rewrite Forall_forall in Ha.
    destruct (Ha r Hr') as (o & Ho & Hadm).
    destruct (He r o (accepted_lookup_old id _ _ _ Ho)) as (o' & Ho' & Hsame).
    exists o'. split; [|by eapply same_admission_admitted].
    rewrite lookup_modify_ne; [done|]. apply lookup_lt_Some in Ho. lia.
  - apply Forall_singleton.
    destruct (He _ _ (accepted_lookup_new id st)) as (w & Hw & Hu & Hc & Hp & Hal).
    exists (set_listeners id w). split.
    + rewrite lookup_modify_eq. simpl. by rewrite Hw.
    + exists id. split_and!; [by apply truthy_nonempty|simpl; by rewrite Hu|done..|].
      simpl. apply Hal. by eexists.
Qed.

Lemma registry_admitted_reachable st : reachable st → registry_admitted st.
Proof.
  intros (directory & evs & ->).
  assert (registry_admitted (initial directory)) as H0 by apply Forall_nil_2.
  revert H0. generalize (initial directory).
  induction evs as [|e evs IH]; intros st Ha; [done|].
  simpl. apply IH. destruct e as [url now| | | | | | |];
    [by apply registry_admitted_connection
    |(eapply evolves_admitted; [by apply evolves_step|done])..].
Qed.

Lemma admitted_onlineUserIds st :
  registry_admitted st → Some <$> onlineUserIds st = registry_ids st.
Proof.
  unfold registry_admitted, onlineUserIds, registry_ids.
  generalize (userSocket st) as l.
  induction 1 as [|r l (ws & Hws & id & Hne & Hu & _) _ IH]; [done|].
  assert (userIdAt (sockets st) r = Some id) as Hid.
  { unfold userIdAt. by rewrite Hws. }
  rewrite fmap_cons, <-IH. cbn [omap list_omap]. rewrite Hid.
  simpl. by destruct (String.eqb_spec id "").
Qed.

(** X5.  In every state the server reaches, each slot of [userSocket] holds
    a socket that the ["connection"] listener admitted: it carries a
    non-empty [userId], its flag is set or cleared, and both listeners are
    attached, the ["close"] listener with that [userId].  The snapshot taken
    by [broadcastUserStatus] therefore lists the [userId] of every entry, in
    registry order and without repetition. *)
Theorem registered_sockets_are_admitted (st : Server) :
  reachable st →
  (∀ r, r ∈ userSocket st →
        ∃ ws id, sockets st !! r = Some ws ∧ id ≠ "" ∧ userId ws = Some id ∧
                 onClose ws = Some id ∧ onPong ws = true ∧ is_Some (isAlive ws)) ∧
  Some <$> onlineUserIds st = userIdAt (sockets st) <$> userSocket st ∧
  NoDup (onlineUserIds st).
Proof.
  intros Hr. pose proof (registry_admitted_reachable st Hr) as Ha.
  pose proof (admitted_onlineUserIds st Ha) as Hids.
  split_and!; [|done|].
  - unfold registry_admitted in Ha. rewrite Forall_forall in Ha.
    intros r Hin. destruct (Ha r Hin) as (ws & Hws & id & H). by exists ws, id.
  - apply (NoDup_fmap_1 Some). rewrite Hids. apply Inv_reachable, Hr.
Qed.

Lemma registered_sockets_are_admitted_witness :
  let st := run [Connection (Some "/?userId=u1") 0; Connection (Some "/?userId=u2") 0;
                 HeartbeatTick; PongEvent 0] (initial []) in
  (∀ r, r ∈ userSocket st →
        ∃ ws id, sockets st !! r = Some ws ∧ id ≠ "" ∧ userId ws = Some id ∧
                 onClose ws = Some id ∧ onPong ws = true ∧ is_Some (isAlive ws)) ∧
  Some <$> onlineUserIds st = userIdAt (sockets st) <$> userSocket st ∧
  NoDup (onlineUserIds st).
Proof.
  apply (registered_sockets_are_admitted
           (run [Connection (Some "/?userId=u1") 0; Connection (Some "/?userId=u2") 0;
                 HeartbeatTick; PongEvent 0] (initial []))).
  exists [], [Connection (Some "/?userId=u1") 0; Connection (Some "/?userId=u2") 0;
              HeartbeatTick; PongEvent 0]. reflexivity.
Defined.

(** ** One call of the heartbeat callback, by case *)

Lemma unique_userIds_lookup_inj st i j r :
  unique_userIds st → userSocket st !! i = Some r → userSocket st !! j = Some r → i = j.
Proof. intros Hu%unique_userIds_NoDup. by apply NoDup_lookup. Qed.

Lemma heartbeat_visit_at k r' st :
  unique_userIds st → userSocket st !! k = Some r' →
  let st1 := heartbeat_visit r' st in
  (∀ r, r ≠ r' → sockets st1 !! r = sockets st !! r) ∧
  ((open_at (sockets st) r' = false ∧ st1 = st) ∨
   (open_at (sockets st) r' = true ∧ due (sockets st) r' = false ∧
    userSocket st1 = userSocket st ∧ tasks st1 = tasks st ∧
    effects st1 = effects st ++ [Ping r'] ∧
    sockets st1 !! r' = set_isAlive false <$> sockets st !! r') ∨
   (due (sockets st) r' = true ∧
    userSocket st1 = delete k (userSocket st) ∧
    tasks st1 = tasks st ++ [AwaitUserFind (onlineUserIds st1)] ∧
    effects st1 = effects st ++ [Terminate r'])).
Proof.
  intros Hu Hk. unfold heartbeat_visit, open_at, due.
  destruct (sockets st !! r') as [ws|] eqn:Hws; [|split; [done|by left]].
  destruct (bool_decide (readyState ws = OPEN)); cbn [negb andb];
    [|split; [done|by left]].
  destruct (bool_decide (isAlive ws = Some true)); cbn [negb].
  - split.
    + intros r Hr. simpl. by rewrite lookup_modify_ne.
    + right; left. simpl.
      rewrite modify_userSocket, modify_tasks, modify_effects, lookup_modify_eq, Hws.
      done.
  - set (st1 := terminate r' st).
    assert (findIndex (userIdAt (sockets st1) r') st1 = Some k) as ->.
    { destruct (findIndex_unique (userIdAt (sockets st1) r') st1 r') as (j & Hj & Hjr).
      - eapply shrinks_unique; [apply shrinks_terminate|done].
      - subst st1. rewrite terminate_userSocket. by eapply list_elem_of_lookup_2.
      - done.
      - subst st1. rewrite terminate_userSocket in Hjr.
        by rewrite Hj, (unique_userIds_lookup_inj st j k r'). }
    split.
    + intros r Hr. subst st1. simpl. by rewrite lookup_modify_ne.
    + right; right. unfold broadcastUserStatus, spawn, splice.
      cbn [userSocket tasks effects with_tasks with_userSocket]. subst st1.
      by rewrite terminate_userSocket, terminate_tasks, terminate_effects.
Qed.

Lemma due_ext h h' r : h' !! r = h !! r → due h' r = due h r.
Proof. unfold due. by intros ->. Qed.

Lemma open_at_ext h h' r : h' !! r = h !! r → open_at h' r = open_at h r.
Proof. unfold open_at. by intros ->. Qed.

Lemma due_open h r : due h r = true → open_at h r = true.
Proof.
  unfold due, open_at. destruct (h !! r); [|done]. by intros [? _]%andb_true_iff.
Qed.

(** An entry the sweep has gone past is not touched again by it. *)
Lemma heartbeat_loop_passed n k st i r :
  unique_userIds st → userSocket st !! i = Some r → i < k →
  let st' := heartbeat_loop n k st in
  userSocket st' !! i = Some r ∧ sockets st' !! r = sockets st !! r ∧
  ∃ es, effects st' = effects st ++ es ∧ Forall (λ e, target e ≠ Some r) es.
Proof.
  revert k st. induction n as [|n IH]; intros k st Hu Hi Hik; simpl.
  { split_and!; [done..|]. exists []. by rewrite app_nil_r. }
  destruct (userSocket st !! k) as [r'|] eqn:Hk; [|apply IH; [done..|lia]].
  assert (r ≠ r') as Hne.
  { intros ->. pose proof (unique_userIds_lookup_inj st i k r' Hu Hi Hk). lia. }
  pose proof (shrinks_unique _ _ (shrinks_heartbeat_visit r' st) Hu) as Hu1.
  destruct (heartbeat_visit_at k r' st Hu Hk) as [Hother Hcase].
  set (st1 := heartbeat_visit r' st) in *.
  assert (userSocket st1 !! i = Some r ∧
          ∃ es1, effects st1 = effects st ++ es1 ∧
                 Forall (λ e, target e ≠ Some r) es1) as [Hi1 (es1 & He1 & Ht1)].
  { destruct Hcase as [[_ ->]|[(_ & _ & -> & _ & -> & _)|(_ & -> & _ & ->)]].
    - split; [done|]. exists []. by rewrite app_nil_r.
    - split; [done|]. eexists. split; [done|].
      apply Forall_singleton. simpl. congruence.
    - split; [by rewrite list_lookup_delete_lt|]. eexists. split; [done|].
      apply Forall_singleton. simpl. congruence. }
  destruct (IH (S k) st1 Hu1 Hi1) as (Hi2 & Hs2 & es2 & He2 & Ht2); [lia|].
  split_and!; [done|by rewrite Hs2, Hother|].
  exists (es1 ++ es2). rewrite He2, He1, <-app_assoc. split; [done|].
  by apply Forall_app.
Qed.

(** The sweep removes and terminates nothing but entries that were due when
    it started. *)
Lemma heartbeat_loop_not_due n k st i r :
  unique_userIds st → userSocket st !! i = Some r →
  i < k ∨ due (sockets st) r = false →
  let st' := heartbeat_loop n k st in
  r ∈ userSocket st' ∧
  ∃ es, effects st' = effects st ++ es ∧ (Terminate r ∉ es).
Proof.
  revert k st i. induction n as [|n IH]; intros k st i Hu Hi Hcond; simpl.
  { split; [by eapply list_elem_of_lookup_2|]. exists []. rewrite app_nil_r.
    split; [done|apply not_elem_of_nil]. }
  destruct (userSocket st !! k) as [r'|] eqn:Hk.
  2:{ apply (IH _ _ i); [done..|]. destruct Hcond; [left; lia|by right]. }
  pose proof (shrinks_unique _ _ (shrinks_heartbeat_visit r' st) Hu) as Hu1.
  destruct (heartbeat_visit_at k r' st Hu Hk) as [Hother Hcase].
  set (st1 := heartbeat_visit r' st) in *.
  assert (∃ i1, userSocket st1 !! i1 = Some r ∧
                (i1 < S k ∨ due (sockets st1) r = false) ∧
                ∃ es1, effects st1 = effects st ++ es1 ∧ (Terminate r ∉ es1))
    as (i1 & Hi1 & Hcond1 & es1 & He1 & Ht1).
  { destruct Hcase as [[_ ->]|[(_ & Hnd & -> & _ & -> & _)|(Hd & -> & _ & ->)]].
    - exists i. split_and!; [done| |].
      + destruct Hcond; [left; lia|by right].
      + exists []. rewrite app_nil_r. split; [done|apply not_elem_of_nil].
    - exists i. split_and!; [done| |].
      + destruct (decide (r = r')) as [->|Hne].
        * left. pose proof (unique_userIds_lookup_inj st i k r' Hu Hi Hk). lia.
        * destruct Hcond; [left; lia|right].
          by rewrite (due_ext (sockets st)) by (by apply Hother).
      + eexists. split; [done|]. by intros ?%list_elem_of_singleton.
    - destruct (decide (i < k)) as [Hlt|Hge].
      + exists i. split_and!; [by rewrite list_lookup_delete_lt|left; lia|].
        eexists. split; [done|].
        intros [= ->]%list_elem_of_singleton.
        pose proof (unique_userIds_lookup_inj st i k r' Hu Hi Hk). lia.
      + destruct Hcond as [?|Hnd]; [lia|].
        assert (r ≠ r') as Hne by congruence.
        assert (i ≠ k) by congruence.
        exists (i - 1). split_and!.
        * rewrite list_lookup_delete_ge by lia.
          by replace (S (i - 1)) with i by lia.
        * right. by rewrite (due_ext (sockets st)) by (by apply Hother).
        * eexists. split; [done|].
          intros [= ->]%list_elem_of_singleton. done. }
  destruct (IH (S k) st1 i1 Hu1 Hi1 Hcond1) as (Hin & es2 & He2 & Ht2).
  split; [done|]. exists (es1 ++ es2). rewrite He2, He1, <-app_assoc.
  split; [done|]. rewrite elem_of_app. tauto.
Qed.

(** X6.  In every state the server reaches, a heartbeat sweep evicts nothing
    but entries that were due when it started: an entry whose socket is not
    open, or whose flag is set (it has answered since the last probe), is
    still registered after the sweep and [terminate] is not called on it. *)
Theorem heartbeat_evicts_only_due_entries (st : Server) (r : nat) :
  reachable st → r ∈ userSocket st → due (sockets st) r = false →
  r ∈ userSocket (heartbeat st) ∧ (Terminate r ∉ new_effects st (heartbeat st)).
Proof.
  intros HI%Inv_reachable [i Hi]%list_elem_of_lookup Hnd.
  destruct (heartbeat_loop_not_due (length (userSocket st)) 0 st i r)
    as (Hin & es & He & Ht); [apply HI|done|by right|].
  fold (heartbeat st) in *. by rewrite (new_effects_app _ _ _ He).
Qed.

Lemma heartbeat_evicts_only_due_entries_witness :
  let st := run [Connection (Some "/?userId=u1") 0; Connection (Some "/?userId=u2") 0;
                 HeartbeatTick; PongEvent 1] (initial []) in
  1 ∈ userSocket (heartbeat st) ∧ (Terminate 1 ∉ new_effects st (heartbeat st)).
Proof.
  apply (heartbeat_evicts_only_due_entries
           (run [Connection (Some "/?userId=u1") 0; Connection (Some "/?userId=u2") 0;
                 HeartbeatTick; PongEvent 1] (initial [])) 1).
  - exists [], [Connection (Some "/?userId=u1") 0; Connection (Some "/?userId=u2") 0;
                HeartbeatTick; PongEvent 1]. reflexivity.
  - vm_compute. repeat constructor.
  - reflexivity.
Defined.

(** ** A sweep in which no entry is due *)

Lemma elem_of_take_drop_later {A} (l : list A) (n m : nat) x :
  x ∈ take n (drop m l) → ∃ j, (m ≤ j)%nat ∧ l !! j = Some x.
Proof.
  intros Hin. assert (x ∈ drop m l) as [i Hi]%list_elem_of_lookup.
  { eapply elem_of_sublist; [done|apply sublist_take]. }
  rewrite lookup_drop in Hi. exists (m + i). split; [lia|done].
Qed.

Lemma heartbeat_loop_quiet (n k : nat) st :
  unique_userIds st →
  (∀ j r, (k ≤ j)%nat → userSocket st !! j = Some r → due (sockets st) r = false) →
  userSocket (heartbeat_loop n k st) = userSocket st ∧
  tasks (heartbeat_loop n k st) = tasks st ∧
  effects (heartbeat_loop n k st) =
    effects st ++
    (Ping <$> List.filter (open_at (sockets st)) (take n (drop k (userSocket st)))) ∧
  ∀ r, sockets (heartbeat_loop n k st) !! r =
         if bool_decide
              (r ∈ List.filter (open_at (sockets st)) (take n (drop k (userSocket st))))
         then set_isAlive false <$> sockets st !! r
         else sockets st !! r.
Proof.
  revert k st. induction n as [|n IH]; intros k st Hu Hquiet; simpl.
  { rewrite app_nil_r. by split_and!. }
  destruct (userSocket st !! k) as [r'|] eqn:Hk.
  2:{ rewrite (drop_ge _ k) by (by apply lookup_ge_None).
      destruct (IH (S k) st Hu) as (H1 & H2 & H3 & H4).
      { intros j r ?. apply Hquiet. lia. }
      rewrite (drop_ge _ (S k)) in H3, H4
        by (apply lookup_ge_None in Hk; lia).
      rewrite take_nil in H3, H4. by rewrite take_nil. }
  rewrite (drop_S _ _ _ Hk). cbn [take List.filter].
  pose proof (shrinks_unique _ _ (shrinks_heartbeat_visit r' st) Hu) as Hu1.
  destruct (heartbeat_visit_at k r' st Hu Hk) as [Hother Hcase].
  set (st1 := heartbeat_visit r' st) in *.
  assert (due (sockets st) r' = false) as Hnd by (by eapply (Hquiet k)).
  assert (∀ j r, (S k ≤ j)%nat → userSocket st !! j = Some r → r ≠ r') as Hlater.
  { intros j r Hj Hr ->.
    pose proof (unique_userIds_lookup_inj st j k r' Hu Hr Hk). lia. }
  assert (userSocket st1 = userSocket st) as Hreg.
  { destruct Hcase as [[_ ->]|[(_ & _ & -> & _)|(Hd & _)]]; [done..|congruence]. }
  destruct (IH (S k) st1 Hu1) as (H1 & H2 & H3 & H4).
  { intros j r Hj Hr. rewrite Hreg in Hr.
    rewrite (due_ext (sockets st)) by (apply Hother; by eapply Hlater).
    apply (Hquiet j); [lia|done]. }
  rewrite Hreg in H1, H3, H4.
  assert (List.filter (open_at (sockets st1)) (take n (drop (S k) (userSocket st))) =
          List.filter (open_at (sockets st)) (take n (drop (S k) (userSocket st)))) as Hf.
  { apply List.filter_ext_in. intros r Hr%list_elem_of_In.
    apply open_at_ext, Hother.
    apply elem_of_take_drop_later in Hr as (j & Hj & Hjr). by eapply Hlater. }
  rewrite Hf in H3, H4.
  assert (r' ∉ List.filter (open_at (sockets st)) (take n (drop (S k) (userSocket st))))
    as Hfresh.
  { intros [Hin _]%list_elem_of_In%List.filter_In. apply list_elem_of_In in Hin.
    apply elem_of_take_drop_later in Hin as (j & Hj & Hjr). by eapply Hlater. }
  destruct Hcase as [[Hclosed Heq]|[(Hopen & _ & _ & Ht & He & Hs)|(Hd & _)]];
    [| |congruence].
  - rewrite Hclosed.
    assert (effects st1 = effects st ∧ sockets st1 = sockets st ∧
            tasks st1 = tasks st) as (He & Hs & Ht) by (by rewrite Heq).
    rewrite He in H3. split_and!; [done|congruence|done|].
    intros r. rewrite H4. by rewrite Hs.
  - rewrite Hopen. split_and!; [done|congruence| |].
    + rewrite H3, He, <-app_assoc. done.
    + intros r. rewrite H4. destruct (decide (r = r')) as [->|Hne].
      * rewrite bool_decide_eq_false_2 by done.
        rewrite bool_decide_eq_true_2 by left. done.
      * rewrite Hother by done.
        destruct (decide (r ∈ List.filter (open_at (sockets st))
                                (take n (drop (S k) (userSocket st))))) as [Hin|Hout].
        -- rewrite !bool_decide_eq_true_2; [done|by right|done].
        -- rewrite !bool_decide_eq_false_2; [done| |done].
           by intros [->|?]%elem_of_cons.
Qed.

(** X7.  In every state the server reaches, a sweep in which no entry is due
    leaves the registry and the suspended calls as they are (no eviction, no
    broadcast); it pings each entry whose socket is open, once and in
    registry order, and clears the flag of exactly those sockets. *)
Theorem heartbeat_quiet_sweep (st : Server) :
  reachable st →
  (∀ r, r ∈ userSocket st → due (sockets st) r = false) →
  let st' := heartbeat st in
  let probed := List.filter (open_at (sockets st)) (userSocket st) in
  userSocket st' = userSocket st ∧ tasks st' = tasks st ∧
  new_effects st st' = Ping <$> probed ∧
  ∀ r, sockets st' !! r =
         if bool_decide (r ∈ probed) then set_isAlive false <$> sockets st !! r
         else sockets st !! r.
Proof.
  intros HI%Inv_reachable Hquiet st' probed.
  destruct (heartbeat_loop_quiet (length (userSocket st)) 0 st) as (H1 & H2 & H3 & H4).
  { apply HI. }
  { intros j r _ Hj. apply Hquiet. by eapply list_elem_of_lookup_2. }
  rewrite drop_0, take_ge in H3, H4 by done.
  split_and!; [done..|by apply new_effects_app|done].
Qed.

Lemma heartbeat_quiet_sweep_witness :
  let st := run [Connection (Some "/?userId=u1") 0; Connection (Some "/?userId=u2") 0;
                 ReadyStateChange 0 CLOSING] (initial []) in
  let st' := heartbeat st in
  let probed := List.filter (open_at (sockets st)) (userSocket st) in
  userSocket st' = userSocket st ∧ tasks st' = tasks st ∧
  new_effects st st' = Ping <$> probed ∧
  ∀ r, sockets st' !! r =
         if bool_decide (r ∈ probed) then set_isAlive false <$> sockets st !! r
         else sockets st !! r.
Proof.
  apply (heartbeat_quiet_sweep
           (run [Connection (Some "/?userId=u1") 0; Connection (Some "/?userId=u2") 0;
                 ReadyStateChange 0 CLOSING] (initial []))).
  - exists [], [Connection (Some "/?userId=u1") 0; Connection (Some "/?userId=u2") 0;
                ReadyStateChange 0 CLOSING]. reflexivity.
  - vm_compute. intros r Hr.
    apply list_elem_of_In in Hr. simpl in Hr.
    destruct Hr as [<-|[<-|[]]]; reflexivity.
Defined.

(** ** The first due entry of a sweep *)

Lemma heartbeat_loop_effects n k st :
  ∃ es, effects (heartbeat_loop n k st) = effects st ++ es.
Proof.
  revert k st. induction n as [|n IH]; intros k st; simpl.
  { exists []. by rewrite app_nil_r. }
  destruct (userSocket st !! k) as [r|]; [|apply IH].
  destruct (IH (S k) (heartbeat_visit r st)) as (es & ->).
  assert (∃ es1, effects (heartbeat_visit r st) = effects st ++ es1) as (es1 & ->).
  { unfold heartbeat_visit. destruct (sockets st !! r); [|by exists []; rewrite app_nil_r].
    destruct (negb _); [by exists []; rewrite app_nil_r|].
    destruct (negb _).
    - exists [Terminate r]. destruct (findIndex _ _); simpl;
        by rewrite modify_effects.
    - exists [Ping r]. simpl. by rewrite modify_effects. }
  exists (es1 ++ es). by rewrite app_assoc.
Qed.

Lemma heartbeat_loop_first_due (n k : nat) st i r :
  unique_userIds st → userSocket st !! i = Some r → due (sockets st) r = true →
  (k ≤ i)%nat → (i < k + n)%nat →
  (∀ j r', (k ≤ j)%nat → (j < i)%nat → userSocket st !! j = Some r' →
           due (sockets st) r' = false) →
  (r ∉ userSocket (heartbeat_loop n k st)) ∧
  ∃ es, effects (heartbeat_loop n k st) = effects st ++ es ∧ Terminate r ∈ es.
Proof.
  revert k st. induction n as [|n IH]; intros k st Hu Hi Hd Hki Hin Hbefore; [lia|].
  simpl. destruct (userSocket st !! k) as [r'|] eqn:Hk.
  2:{ apply lookup_ge_None in Hk. apply lookup_lt_Some in Hi. lia. }
  pose proof (shrinks_unique _ _ (shrinks_heartbeat_visit r' st) Hu) as Hu1.
  destruct (heartbeat_visit_at k r' st Hu Hk) as [Hother Hcase].
  set (st1 := heartbeat_visit r' st) in *.
  destruct (decide (k = i)) as [->|Hne].
  - assert (r' = r) as -> by congruence.
    destruct Hcase as [[Hclosed _]|[(_ & Hnd & _)|(_ & Hreg & _ & He)]].
    { apply due_open in Hd. congruence. }
    { congruence. }
    split.
    + intros Hin'. eapply elem_of_sublist in Hin'; [|apply shrinks_heartbeat_loop].
      rewrite Hreg in Hin'. revert Hin'.
      apply NoDup_delete_lookup; [by apply unique_userIds_NoDup|done].
    + destruct (heartbeat_loop_effects n (S i) st1) as (es & ->).
      exists (Terminate r :: es). rewrite He, <-app_assoc. split; [done|left].
  - assert (r ≠ r') as Hrr.
    { intros ->. by apply Hne, (unique_userIds_lookup_inj st k i r'). }
    assert (due (sockets st) r' = false) as Hnd by (apply (Hbefore k); [lia..|done]).
    assert (userSocket st1 = userSocket st ∧
            ∃ es1, effects st1 = effects st ++ es1) as [Hreg (es1 & He1)].
    { destruct Hcase as [[_ ->]|[(_ & _ & -> & _ & -> & _)|(Hd' & _)]];
        [|by eauto|congruence].
      split; [done|]. exists []. by rewrite app_nil_r. }
    destruct (IH (S k) st1) as (Hout & es & He & Ht); [done|by rewrite Hreg| |lia..| |].
    + by rewrite (due_ext (sockets st)) by (by apply Hother).
    + intros j r'' Hj Hji Hr''. rewrite Hreg in Hr''.
      rewrite (due_ext (sockets st)); [apply (Hbefore j); [lia..|done]|].
      apply Hother. intros ->.
      pose proof (unique_userIds_lookup_inj st j k r' Hu Hr'' Hk). lia.
    + split; [done|]. exists (es1 ++ es). rewrite He, He1, <-app_assoc.
      split; [done|]. apply elem_of_app. by right.
Qed.

(** X8.  In every state the server reaches, the first due entry of the
    registry (an open socket whose flag is not set, with no due entry before
    it) is evicted by the next sweep: [terminate] is called on it and it is
    no longer registered after the sweep. *)
Theorem heartbeat_evicts_first_due_entry (st : Server) (i r : nat) :
  reachable st →
  userSocket st !! i = Some r → due (sockets st) r = true →
  (∀ j r', (j < i)%nat → userSocket st !! j = Some r' → due (sockets st) r' = false) →
  (r ∉ userSocket (heartbeat st)) ∧ Terminate r ∈ new_effects st (heartbeat st).
Proof.
  intros HI%Inv_reachable Hi Hd Hbefore.
  destruct (heartbeat_loop_first_due (length (userSocket st)) 0 st i r)
    as (Hout & es & He & Ht); [apply HI|done..|lia| | |].
  - apply lookup_lt_Some in Hi. lia.
  - intros j r' _. apply Hbefore.
  - fold (heartbeat st) in *. by rewrite (new_effects_app _ _ _ He).
Qed.

Lemma heartbeat_evicts_first_due_entry_witness :
  let st := run [Connection (Some "/?userId=u1") 0; Connection (Some "/?userId=u2") 0;
                 HeartbeatTick; PongEvent 0] (initial []) in
  (1 ∉ userSocket (heartbeat st)) ∧ Terminate 1 ∈ new_effects st (heartbeat st).
Proof.
  apply (heartbeat_evicts_first_due_entry
           (run [Connection (Some "/?userId=u1") 0; Connection (Some "/?userId=u2") 0;
                 HeartbeatTick; PongEvent 0] (initial [])) 1 1).
  - exists [], [Connection (Some "/?userId=u1") 0; Connection (Some "/?userId=u2") 0;
                HeartbeatTick; PongEvent 0]. reflexivity.
  - reflexivity.
  - reflexivity.
  - intros j r' Hj. destruct j as [|j]; [|lia]. vm_compute. by intros [= <-].
Defined.

(** ** The staleness sweep *)

Lemma sweep_loop_frame n st :
  tasks (sweep_loop n st) = tasks st ∧ effects (sweep_loop n st) = effects st ∧
  users (sweep_loop n st) = users st ∧ sockets (sweep_loop n st) = sockets st.
Proof.
  revert st. induction n as [|n IH]; intros st; simpl; [done|].
  destruct (IH (sweep_visit n st)) as (-> & -> & -> & ->).
  unfold sweep_visit. destruct (_ ≫= _); [|done]. by destruct (negb _).
Qed.

Lemma sweep_loop_open (n : nat) st :
  (n ≤ length (userSocket st))%nat →
  (∀ r, r ∈ userSocket st → open_at (sockets st) r = true) →
  sweep_loop n st = st.
Proof.
  induction n as [|n IH]; intros Hn Hopen; simpl; [done|].
  destruct (lookup_lt_is_Some_2 (userSocket st) n) as [r Hr]; [lia|].
  assert (sweep_visit n st = st) as ->; [|apply IH; [lia|done]].
  pose proof (Hopen r (list_elem_of_lookup_2 _ _ _ Hr)) as Ho.
  unfold sweep_visit, open_at in *. rewrite Hr. simpl.
  destruct (sockets st !! r); [|done]. by rewrite Ho.
Qed.

(** X9.  The staleness sweep keeps the slots that hold an open socket, in
    order, and removes the others.  It calls [broadcastUserStatus] once when
    it removed a slot and not at all otherwise.  It does not call
    [terminate] on the sockets it removes and changes no socket object.  A
    second sweep right after it changes nothing. *)
Theorem staleness_sweep_effect (st : Server) :
  let st' := staleness_sweep st in
  let removed := (length (userSocket st) - length (userSocket st'))%nat in
  userSocket st' = List.filter (open_at (sockets st)) (userSocket st) ∧
  sockets st' = sockets st ∧ users st' = users st ∧ effects st' = effects st ∧
  tasks st' = tasks st ++
    (if (0 <? removed)%nat then [AwaitUserFind (onlineUserIds st')] else []) ∧
  staleness_sweep st' = st'.
Proof.
  intros st' removed.
  pose proof (staleness_sweep_userSocket st) as Hreg. fold st' in Hreg.
  destruct (sweep_loop_frame (length (userSocket st)) st) as (Ht & He & Hu & Hs).
  destruct (sweep_loop_filter (length (userSocket st)) st) as [Hreg' _]; [done|].
  rewrite take_ge, drop_all, app_nil_r in Hreg' by done.
  assert (sockets st' = sockets st ∧ users st' = users st ∧ effects st' = effects st ∧
          tasks st' = tasks st ++
            (if (0 <? removed)%nat then [AwaitUserFind (onlineUserIds st')] else []))
    as (Hs' & Hu' & He' & Ht').
  { subst removed. rewrite Hreg. subst st'. unfold staleness_sweep. rewrite Hreg'.
    destruct (0 <? _)%nat; cbn [sockets users effects tasks broadcastUserStatus spawn
      with_tasks]; rewrite ?Ht, ?He, ?Hu, ?Hs, ?app_nil_r; done. }
  split_and!; [done..|].
  assert (∀ r, r ∈ userSocket st' → open_at (sockets st') r = true) as Hopen.
  { intros r. rewrite Hreg, Hs', list_elem_of_In, List.filter_In. tauto. }
  unfold staleness_sweep at 1. rewrite sweep_loop_open by done.
  by rewrite Nat.sub_diag.
Qed.

(** ** Touching [lastLogin] *)

Lemma findByIdAndUpdate_fields id date us :
  _id <$> findByIdAndUpdate id date us = _id <$> us ∧
  username <$> findByIdAndUpdate id date us = username <$> us ∧
  email <$> findByIdAndUpdate id date us = email <$> us.
Proof.
  induction us as [|u us (IH1 & IH2 & IH3)]; [done|]. simpl.
  case_decide; [done|]. csimpl. by rewrite IH1, IH2, IH3.
Qed.

Lemma findByIdAndUpdate_absent id date us :
  id ∉ (_id <$> us) → findByIdAndUpdate id date us = us.
Proof.
  induction us as [|u us IH]; [done|]. csimpl.
  intros [Hne Hin]%not_elem_of_cons. case_decide; [done|]. by rewrite IH.
Qed.

Lemma findByIdAndUpdate_other id date us u :
  u ∈ us → _id u ≠ id → u ∈ findByIdAndUpdate id date us.
Proof.
  induction us as [|v us IH]; [by intros ?%not_elem_of_nil|]. simpl.
  intros [->|Hin]%elem_of_cons Hne.
  - case_decide; [done|]. left.
  - case_decide; [by right|]. right. by apply IH.
Qed.

Lemma findByIdAndUpdate_touched id date us u :
  NoDup (_id <$> us) → u ∈ us → _id u = id →
  mkUser id (username u) (email u) date ∈ findByIdAndUpdate id date us.
Proof.
  induction us as [|v us IH]; [by intros _ ?%not_elem_of_nil|]. csimpl.
  intros [Hv Hnd]%NoDup_cons [->|Hin]%elem_of_cons Hid.
  - case_decide; [|done]. rewrite Hid. left.
  - case_decide as Hvid; [|right; by apply IH].
    destruct Hv. rewrite Hvid, <-Hid. by apply list_elem_of_fmap_2.
Qed.

Lemma findByIdAndUpdate_result id date us v :
  NoDup (_id <$> us) → v ∈ findByIdAndUpdate id date us →
  if decide (_id v = id) then lastLogin v = date else v ∈ us.
Proof.
  induction us as [|u us IH]; [by intros _ ?%not_elem_of_nil|]. csimpl.
  intros [Hu Hnd]%NoDup_cons. destruct (decide (_id u = id)) as [Huid|Huid].
  - intros [->|Hin]%elem_of_cons; simpl.
    + by rewrite decide_True.
    + rewrite decide_False; [by right|]. intros Hv. apply Hu.
      rewrite Huid, <-Hv. by apply list_elem_of_fmap_2.
  - intros [->|Hin]%elem_of_cons.
    + rewrite decide_False by done. left.
    + specialize (IH Hnd Hin). destruct (decide (_id v = id)); [done|by right].
Qed.

(** X11.  When the update of [updateUserLastLogin] is fulfilled, the
    directory keeps its documents, with their [_id], [username] and [email],
    in order: no document is created, so an identity without a document
    leaves the directory as it is, and every other document is unchanged;
    with [_id] as a key, the document of the identity has the new
    [lastLogin].  The registry and the effects are as before.  When the
    update is rejected the directory is unchanged. *)
Theorem touch_changes_only_lastLogin
    (st : Server) (k : nat) (id : string) (date : Z) (throws : nat → bool) :
  tasks st !! k = Some (AwaitFindByIdAndUpdate id date) →
  let st' := step (Settle k true throws) st in
  _id <$> users st' = _id <$> users st ∧
  username <$> users st' = username <$> users st ∧
  email <$> users st' = email <$> users st ∧
  (id ∉ (_id <$> users st) → users st' = users st) ∧
  (∀ u, u ∈ users st → _id u ≠ id → u ∈ users st') ∧
  (NoDup (_id <$> users st) →
   ∀ v, v ∈ users st' → if decide (_id v = id) then lastLogin v = date else v ∈ users st) ∧
  userSocket st' = userSocket st ∧ effects st' = effects st ∧
  users (step (Settle k false throws) st) = users st.
Proof.
  intros Hk. simpl. rewrite Hk. simpl.
  destruct (findByIdAndUpdate_fields id date (users st)) as (H1 & H2 & H3).
  split_and!; try done.
  - apply findByIdAndUpdate_absent.
  - intros u. apply findByIdAndUpdate_other.
  - intros Hnd v. by apply findByIdAndUpdate_result.
Qed.

Lemma touch_changes_only_lastLogin_witness :
  let st := run [Connection (Some "/?userId=u1") 500]
                (initial [mkUser "u1" (Text "ann") (Text "ann@example.org") 0;
                          mkUser "u2" (Text "bob") (Text "bob@example.org") 7]) in
  let st' := step (Settle 0 true (λ _, false)) st in
  _id <$> users st' = _id <$> users st ∧
  username <$> users st' = username <$> users st ∧
  email <$> users st' = email <$> users st ∧
  ("u1" ∉ (_id <$> users st) → users st' = users st) ∧
  (∀ u, u ∈ users st → _id u ≠ "u1" → u ∈ users st') ∧
  (NoDup (_id <$> users st) →
   ∀ v, v ∈ users st' → if decide (_id v = "u1") then lastLogin v = 500%Z else v ∈ users st) ∧
  userSocket st' = userSocket st ∧ effects st' = effects st ∧
  users (step (Settle 0 false (λ _, false)) st) = users st.
Proof.
  apply (touch_changes_only_lastLogin
           (run [Connection (Some "/?userId=u1") 500]
              (initial [mkUser "u1" (Text "ann") (Text "ann@example.org") 0;
                        mkUser "u2" (Text "bob") (Text "bob@example.org") 7]))
           0 "u1" 500%Z (λ _, false)).
  reflexivity.
Defined.

(** X12.  A document touched at [date] outlives a reconciler run at [now]
    as long as [now] is at most two minutes after [date]: with [_id] as a
    key, after the fulfilled update and the run the directory holds the
    document of that identity with [lastLogin = date]. *)
Theorem touched_user_survives_reconciler
    (st : Server) (k : nat) (id : string) (date now : Z) (throws : nat → bool)
    (u : User) :
  NoDup (_id <$> users st) →
  tasks st !! k = Some (AwaitFindByIdAndUpdate id date) →
  u ∈ users st → _id u = id →
  (now - 2 * 60 * 1000 ≤ date)%Z →
  mkUser id (username u) (email u) date
    ∈ users (reconciler_run now (step (Settle k true throws) st)).
Proof.
  intros Hnd Hk Hu Hid Hnow.
  set (st1 := step (Settle k true throws) st).
  assert (mkUser id (username u) (email u) date ∈ users st1) as Hin.
  { subst st1. simpl. rewrite Hk. simpl. by apply findByIdAndUpdate_touched. }
  destruct (List.filter (inactive (now - 2 * 60 * 1000)) (users st1)) as [|u0 us0] eqn:E.
  - destruct (reconciler_run_nothing now st1 E) as (-> & _). done.
  - destruct (reconciler_run_deletes now st1) as (-> & _); [by rewrite E|].
    apply elem_of_filter_active. split; [done|]. simpl. lia.
Qed.

Lemma touched_user_survives_reconciler_witness :
  mkUser "u1" (Text "ann") (Text "ann@example.org") 500
    ∈ users (reconciler_run 120500
               (step (Settle 0 true (λ _, false))
                  (run [Connection (Some "/?userId=u1") 500]
                     (initial [mkUser "u1" (Text "ann") (Text "ann@example.org") 0;
                               mkUser "u2" (Text "bob") (Text "bob@example.org") 7])))).
Proof.
  apply (touched_user_survives_reconciler
           (run [Connection (Some "/?userId=u1") 500]
              (initial [mkUser "u1" (Text "ann") (Text "ann@example.org") 0;
                        mkUser "u2" (Text "bob") (Text "bob@example.org") 7]))
           0 "u1" 500%Z 120500%Z (λ _, false)
           (mkUser "u1" (Text "ann") (Text "ann@example.org") 0)).
  - apply (bool_decide_unpack _). vm_compute. exact I.
  - reflexivity.
  - vm_compute. constructor.
  - reflexivity.
  - vm_compute. discriminate.
Defined.

(** ** Admission and close, step by step *)

Lemma replace_existing_tasks id st : tasks (replace_existing id st) = tasks st.
Proof.
  unfold replace_existing. destruct (findIndex _ _) as [j|]; [|done].
  destruct (userSocket st !! j) as [r|]; [|done].
  destruct (sockets st !! r); [|done]. simpl. apply modify_tasks.
Qed.

Lemma accepted_tasks id st : tasks (accepted id st) = tasks st.
Proof. unfold accepted. by rewrite modify_tasks. Qed.

Lemma connection_tasks url now id st :
  requestUserId url = Some id → truthy (Some id) = true →
  ∃ online,
    tasks (connection url now st) =
      tasks st ++ [AwaitFindByIdAndUpdate id now; AwaitUserFind online] ∧
    id ∈ online.
Proof.
  intros H1 H2. rewrite (connection_admitted _ _ id), admit_connection_unfold by done.
  fold (accepted id st). set (st1 := replace_existing id (accepted id st)).
  cbn zeta. rewrite modify_tasks.
  cbn [tasks broadcastUserStatus updateUserLastLogin spawn with_tasks with_userSocket].
  eexists. split.
  { subst st1. by rewrite replace_existing_tasks, accepted_tasks, <-app_assoc. }
  apply elem_of_onlineUserIds. split; [by apply truthy_nonempty|].
  exists (length (sockets st)). cbn [userSocket sockets]. split.
  - apply elem_of_app. right. constructor.
  - pose proof (shrinks_replace_existing id (accepted id st)) as [Hs _].
    subst st1. rewrite (same_identities_userIdAt _ _ _ Hs).
    apply accepted_userIdAt_new.
Qed.

(** X4.  An admitted connection calls [updateUserLastLogin] and then
    [broadcastUserStatus]; the snapshot of that broadcast contains the
    admitted [userId], so that the message built from it marks every
    document with that [_id] as online. *)
Theorem admission_broadcast_shows_online
    (url : option string) (now : Z) (id : string) (st : Server) :
  requestUserId url = Some id → truthy (Some id) = true →
  ∃ online,
    tasks (step (Connection url now) st) =
      tasks st ++ [AwaitFindByIdAndUpdate id now; AwaitUserFind online] ∧
    id ∈ online ∧
    ∀ u, _id u = id →
         get_field "online" (userWithStatus online u) = Some (JBool true).
Proof.
  intros H1 H2. destruct (connection_tasks url now id st H1 H2) as (online & Ht & Hin).
  exists online. split_and!; [done..|].
  intros u <-. destruct (userWithStatus_fields online u) as (_ & _ & _ & _ & ->).
  by rewrite bool_decide_eq_true_2.
Qed.

Lemma admission_broadcast_shows_online_witness :
  ∃ online,
    tasks (step (Connection (Some "/?userId=u1") 9) (initial [])) =
      tasks (initial []) ++ [AwaitFindByIdAndUpdate "u1" 9; AwaitUserFind online] ∧
    "u1" ∈ online ∧
    ∀ u, _id u = "u1" →
         get_field "online" (userWithStatus online u) = Some (JBool true).
Proof.
  apply (admission_broadcast_shows_online (Some "/?userId=u1") 9 "u1" (initial []));
    reflexivity.
Defined.

Lemma replace_existing_fresh id st :
  Some id ∉ registry_ids st → replace_existing id st = st.
Proof. intros H%findIndex_None. unfold replace_existing. by rewrite H. Qed.

(** X3.  In every state the server reaches, admitting a connection for a
    [userId] that no entry carries appends the new socket to the registry
    and nothing else: no socket is terminated, the sockets already there are
    unchanged, and the new socket carries the [userId], a set flag, and both
    listeners. *)
Theorem admission_of_new_identity
    (url : option string) (now : Z) (id : string) (st : Server) :
  reachable st →
  requestUserId url = Some id → truthy (Some id) = true →
  (∀ r, r ∈ userSocket st → userIdAt (sockets st) r ≠ Some id) →
  let st' := step (Connection url now) st in
  userSocket st' = userSocket st ++ [length (sockets st)] ∧
  sockets st' = sockets st ++ [mkExtWebSocket (Some id) (Some true) OPEN (Some id) true] ∧
  effects st' = effects st ∧ users st' = users st.
Proof.
  intros HI%Inv_reachable H1 H2 Hfresh. simpl.
  assert (replace_existing id (accepted id st) = accepted id st) as Hrep.
  { apply replace_existing_fresh. rewrite accepted_ids by apply HI.
    intros (r & Hr & Hin)%list_elem_of_fmap. by apply (Hfresh r). }
  rewrite (connection_admitted _ _ id), admit_connection_unfold by done.
  fold (accepted id st). rewrite Hrep. cbn zeta.
  rewrite modify_userSocket, modify_effects, modify_users.
  cbn [userSocket effects users broadcastUserStatus updateUserLastLogin spawn
       with_tasks with_userSocket].
  rewrite accepted_userSocket, accepted_effects.
  split_and!; [done| |done|by unfold accepted; rewrite modify_users].
  unfold modify at 1.
  cbn [sockets broadcastUserStatus updateUserLastLogin spawn with_tasks with_userSocket].
  rewrite accepted_lookup_new. cbn [sockets with_sockets].
  unfold accepted, modify. cbn [sockets with_sockets].
  rewrite lookup_app_r, Nat.sub_diag by done. cbn [lookup list_lookup].
  cbn [sockets with_sockets].
  rewrite list_insert_insert_eq.
  replace (length (sockets st)) with (length (sockets st) + 0) at 1 by lia.
  by rewrite insert_app_r.
Qed.

Lemma admission_of_new_identity_witness :
  let st := run [Connection (Some "/?userId=u1") 0] (initial []) in
  let st' := step (Connection (Some "/?userId=u2") 5) st in
  userSocket st' = userSocket st ++ [length (sockets st)] ∧
  sockets st' = sockets st ++ [mkExtWebSocket (Some "u2") (Some true) OPEN (Some "u2") true] ∧
  effects st' = effects st ∧ users st' = users st.
Proof.
  apply (admission_of_new_identity (Some "/?userId=u2") 5 "u2"
           (run [Connection (Some "/?userId=u1") 0] (initial []))).
  - exists [], [Connection (Some "/?userId=u1") 0]. reflexivity.
  - reflexivity.
  - reflexivity.
  - intros r Hr. apply list_elem_of_In in Hr. simpl in Hr.
    destruct Hr as [<-|[]]. vm_compute. discriminate.
Defined.

(** X10.  In every state the server reaches, the ["close"] event of a
    registered socket takes exactly that socket out of the registry and
    calls [broadcastUserStatus] once, with a snapshot that no longer holds
    its [userId]; the socket is closed and nothing is sent or terminated by
    the listener itself. *)
Theorem close_event_unregisters (st : Server) (r : nat) :
  reachable st → r ∈ userSocket st →
  let st' := step (CloseEvent r) st in
  ∃ j id online,
    userSocket st !! j = Some r ∧ userIdAt (sockets st) r = Some id ∧
    userSocket st' = delete j (userSocket st) ∧ (r ∉ userSocket st') ∧
    tasks st' = tasks st ++ [AwaitUserFind online] ∧ (id ∉ online) ∧
    effects st' = effects st ∧
    readyState <$> sockets st' !! r = Some CLOSED.
Proof.
  intros Hreach Hin. pose proof (Inv_reachable _ Hreach) as HI.
  pose proof (registry_admitted_reachable _ Hreach) as Ha.
  unfold registry_admitted in Ha. rewrite Forall_forall in Ha.
  destruct (Ha r Hin) as (ws & Hws & id & Hne & Hu & Hc & _).
  simpl. unfold close_event.
  set (st1 := modify r (set_readyState CLOSED) st).
  assert (sockets st1 !! r = Some (set_readyState CLOSED ws)) as Hws1.
  { subst st1. by rewrite lookup_modify_eq, Hws. }
  rewrite Hws1. simpl. rewrite Hc.
  assert (shrinks st st1) as Hsh by (by apply shrinks_modify).
  assert (unique_userIds st1) as Hu1 by (eapply shrinks_unique; [done|apply HI]).
  assert (userSocket st1 = userSocket st) as Hreg by apply modify_userSocket.
  assert (userIdAt (sockets st1) r = Some id) as Hid1.
  { unfold userIdAt. by rewrite Hws1. }
  destruct (findIndex_unique (Some id) st1 r) as (j & Hfind & Hj);
    [done|by rewrite Hreg|done|].
  pose proof (close_listener_absent id st1 Hu1) as Habs.
  unfold close_listener in *. rewrite Hfind in *.
  exists j, id, (onlineUserIds (splice j st1)).
  unfold broadcastUserStatus, spawn, splice in *.
  cbn [userSocket tasks effects sockets with_tasks with_userSocket] in *.
  rewrite Hreg in *. subst st1. rewrite modify_tasks, modify_effects.
  split_and!; [done|by unfold userIdAt; rewrite Hws|done| |done| |done|by rewrite Hws1].
  - apply NoDup_delete_lookup; [by apply unique_userIds_NoDup, HI|done].
  - intros (_ & r' & Hr' & Hid')%elem_of_onlineUserIds. apply Habs.
    unfold registry_ids. cbn [userSocket sockets]. rewrite <-Hid'.
    by apply list_elem_of_fmap_2.
Qed.

Lemma close_event_unregisters_witness :
  let st := run [Connection (Some "/?userId=u1") 0; Connection (Some "/?userId=u2") 0]
                (initial []) in
  let st' := step (CloseEvent 0) st in
  ∃ j id online,
    userSocket st !! j = Some 0 ∧ userIdAt (sockets st) 0 = Some id ∧
    userSocket st' = delete j (userSocket st) ∧ (0 ∉ userSocket st') ∧
    tasks st' = tasks st ++ [AwaitUserFind online] ∧ (id ∉ online) ∧
    effects st' = effects st ∧
    readyState <$> sockets st' !! 0%nat = Some CLOSED.
Proof.
  apply (close_event_unregisters
           (run [Connection (Some "/?userId=u1") 0; Connection (Some "/?userId=u2") 0]
              (initial [])) 0).
  - exists [], [Connection (Some "/?userId=u1") 0; Connection (Some "/?userId=u2") 0].
    reflexivity.
  - vm_compute. constructor.
Defined.

(** ** Whom the server writes to *)

Lemma addresses_nil reg : addresses reg [].
Proof. by intros x r ?%not_elem_of_nil. Qed.

Lemma addresses_app reg es es' :
  addresses reg es → addresses reg es' → addresses reg (es ++ es').
Proof. intros H H' x r [?|?]%elem_of_app; eauto. Qed.

Lemma addresses_singleton reg x :
  (∀ r, target x = Some r → r ∈ reg) → addresses reg [x].
Proof. intros H y r ->%list_elem_of_singleton. apply H. Qed.

Lemma heartbeat_visit_addresses reg r st :
  r ∈ reg →
  ∃ es, effects (heartbeat_visit r st) = effects st ++ es ∧ addresses reg es.
Proof.
  intros Hr. unfold heartbeat_visit.
  assert (∃ es, effects st = effects st ++ es ∧ addresses reg es) as Hnone.
  { exists []. split; [by rewrite app_nil_r|apply addresses_nil]. }
  destruct (sockets st !! r); [|done].
  destruct (negb _); [done|]. destruct (negb _).
  - exists [Terminate r]. split.
    + destruct (findIndex _ _); simpl; by rewrite modify_effects.
    + apply addresses_singleton. by intros ? [= <-].
  - exists [Ping r]. split; [simpl; by rewrite modify_effects|].
    apply addresses_singleton. by intros ? [= <-].
Qed.

Lemma heartbeat_loop_addresses reg n k st :
  (∀ r, r ∈ userSocket st → r ∈ reg) →
  ∃ es, effects (heartbeat_loop n k st) = effects st ++ es ∧ addresses reg es.
Proof.
  revert k st. induction n as [|n IH]; intros k st Hsub; simpl.
  { exists []. split; [by rewrite app_nil_r|apply addresses_nil]. }
  destruct (userSocket st !! k) as [r|] eqn:Hk; [|by apply IH].
  destruct (heartbeat_visit_addresses reg r st) as (es1 & He1 & Ha1).
  { apply Hsub. by eapply list_elem_of_lookup_2. }
  destruct (IH (S k) (heartbeat_visit r st)) as (es2 & He2 & Ha2).
  { intros r' Hr'. apply Hsub. eapply elem_of_sublist; [done|].
    apply shrinks_heartbeat_visit. }
  exists (es1 ++ es2). rewrite He2, He1, <-app_assoc.
  split; [done|by apply addresses_app].
Qed.

Lemma replace_existing_addresses id st :
  ∃ es, effects (replace_existing id st) = effects st ++ es ∧
        addresses (userSocket st) es.
Proof.
  unfold replace_existing.
  assert (∃ es, effects st = effects st ++ es ∧ addresses (userSocket st) es) as Hnone.
  { exists []. split; [by rewrite app_nil_r|apply addresses_nil]. }
  destruct (findIndex _ _) as [j|]; [|done].
  destruct (userSocket st !! j) as [r|] eqn:Hj; [|done].
  destruct (sockets st !! r); [|done].
  exists [Terminate r]. split; [simpl; by rewrite modify_effects|].
  apply addresses_singleton. intros ? [= <-]. by eapply list_elem_of_lookup_2.
Qed.

Lemma connection_effects_any url now st :
  ∃ es, effects (connection url now st) = effects st ++ es ∧
        addresses (userSocket st) es.
Proof.
  unfold connection.
  assert (∃ es, effects st = effects st ++ es ∧ addresses (userSocket st) es) as Hnone.
  { exists []. split; [by rewrite app_nil_r|apply addresses_nil]. }
  destruct (requestUserId url) as [id|]; [|done].
  destruct (truthy (Some id)); [|done].
  rewrite admit_connection_unfold. fold (accepted id st). cbn zeta.
  rewrite modify_effects.
  cbn [effects broadcastUserStatus updateUserLastLogin spawn with_tasks with_userSocket].
  destruct (replace_existing_addresses id (accepted id st)) as (es & -> & Ha).
  rewrite accepted_effects, accepted_userSocket in *. eauto.
Qed.

Lemma resume_addresses t ok throws st :
  ∃ es, effects (resume t ok throws st) = effects st ++ es ∧
        addresses (userSocket st) es.
Proof.
  assert (∃ es, effects st = effects st ++ es ∧ addresses (userSocket st) es) as Hnone.
  { exists []. split; [by rewrite app_nil_r|apply addresses_nil]. }
  assert (∀ msg, addresses (userSocket st) [ConsoleError msg]) as Herr.
  { intros msg. by apply addresses_singleton. }
  destruct t as [id date|online|cutoff|cutoff]; simpl.
  - unfold updateUserLastLogin_resume. destruct ok; simpl; eauto.
  - unfold broadcastUserStatus_resume. destruct ok; simpl; [|eauto].
    pose proof (send_loop_sends throws
      (userStatusMessage (usersWithStatus online (users st))) (userSocket st))
      as Hs.
    destruct (send_loop _ _ _) as [es threw]. simpl in Hs.
    assert (addresses (userSocket st) es) as Ha.
    { intros x r (r' & Hr' & ->)%Hs [= <-]. done. }
    destruct threw; simpl; eexists; (split; [done|]); [|done].
    by apply addresses_app.
  - unfold deleteInactiveUsers_found. destruct ok; simpl; [|eauto].
    by destruct (_ <? _)%nat.
  - unfold deleteInactiveUsers_deleted. destruct ok; simpl; eauto.
Qed.

(** X13.  Whatever the event, the effects it adds ([terminate], [ping],
    [send]) are addressed to sockets that were registered when the event
    arrived: the server never writes to a socket it refused or has already
    taken out of the registry. *)
Theorem effects_address_registered_sockets (e : Event) (st : Server) :
  ∃ es, effects (step e st) = effects st ++ es ∧
        ∀ x r, x ∈ es → target x = Some r → r ∈ userSocket st.
Proof.
  assert (∃ es, effects st = effects st ++ es ∧ addresses (userSocket st) es) as Hnone.
  { exists []. split; [by rewrite app_nil_r|apply addresses_nil]. }
  destruct e as [url now|r|r|r rs| | |now|k ok throws]; simpl.
  - apply connection_effects_any.
  - unfold close_event. destruct (_ ≫= onClose) as [id|].
    + unfold close_listener. destruct (findIndex _ _); simpl;
        by rewrite modify_effects.
    + by rewrite modify_effects.
  - unfold pong_event. destruct (sockets st !! r) as [o|]; [|done].
    destruct (onPong o); [|done]. by rewrite modify_effects.
  - by rewrite modify_effects.
  - by apply heartbeat_loop_addresses.
  - unfold staleness_sweep.
    destruct (sweep_loop_frame (length (userSocket st)) st) as (_ & He & _).
    destruct (_ <? _)%nat; simpl; by rewrite He.
  - done.
  - destruct (tasks st !! k) as [t|]; [|done].
    apply (resume_addresses t ok throws (with_tasks (delete k (tasks st)) st)).
Qed.

(** ** What an event leaves alone *)

Lemma connection_old_socket url now st r ws :
  sockets st !! r = Some ws →
  ∃ ws', sockets (connection url now st) !! r = Some ws' ∧ same_admission ws ws'.
Proof.
  intros Hr. unfold connection.
  assert (∃ ws', sockets (with_sockets (sockets st ++ [newSocket]) st) !! r = Some ws' ∧
                 same_admission ws ws') as Hnone.
  { exists ws. split; [by apply lookup_app_l_Some|apply same_admission_refl]. }
  destruct (requestUserId url) as [id|]; [|done].
  destruct (truthy (Some id)); [|done].
  rewrite admit_connection_unfold. fold (accepted id st). cbn zeta.
  destruct (evolves_replace_existing id (accepted id st)) as [He _].
  destruct (He r ws (accepted_lookup_old id _ _ _ Hr)) as (ws' & Hws' & Hsame).
  exists ws'. split; [|done]. rewrite lookup_modify_ne; [done|].
  apply lookup_lt_Some in Hr. lia.
Qed.

Lemma connection_userSocket_length url now st :
  (length (userSocket (connection url now st)) ≤ S (length (userSocket st)))%nat.
Proof.
  unfold connection. destruct (requestUserId url) as [id|]; [|simpl; lia].
  destruct (truthy (Some id)); [|simpl; lia].
  rewrite admit_connection_unfold. fold (accepted id st). cbn zeta.
  rewrite modify_userSocket.
  cbn [userSocket broadcastUserStatus updateUserLastLogin spawn with_tasks with_userSocket].
  rewrite length_app. simpl.
  pose proof (shrinks_replace_existing id (accepted id st)) as [_ Hs%sublist_length].
  rewrite accepted_userSocket in Hs. lia.
Qed.

(** X14.  No event changes the [userId] or the listeners of a socket that
    exists, and none removes a socket object.  Only a connection adds an
    entry to the registry, and it adds at most one; every other event
    leaves the registry as it is or takes entries out, keeping the order of
    the rest. *)
Theorem events_keep_socket_identity (e : Event) (st : Server) :
  (∀ r ws, sockets st !! r = Some ws →
     ∃ ws', sockets (step e st) !! r = Some ws' ∧
            userId ws' = userId ws ∧ onClose ws' = onClose ws ∧ onPong ws' = onPong ws) ∧
  match e with
  | Connection _ _ =>
      (length (userSocket (step e st)) ≤ S (length (userSocket st)))%nat
  | _ => userSocket (step e st) `sublist_of` userSocket st
  end.
Proof.
  assert (∀ st', evolves st st' →
    ∀ r ws, sockets st !! r = Some ws →
      ∃ ws', sockets st' !! r = Some ws' ∧
             userId ws' = userId ws ∧ onClose ws' = onClose ws ∧ onPong ws' = onPong ws)
    as Hev.
  { intros st' [He _] r ws Hr. destruct (He r ws Hr) as (ws' & Hws' & H1 & H2 & H3 & _).
    by exists ws'. }
  destruct e as [url now|r|r|r rs| | |now|k ok throws].
  - split; [|apply connection_userSocket_length].
    intros r ws Hr. simpl.
    destruct (connection_old_socket url now st r ws Hr) as (ws' & Hws' & H1 & H2 & H3 & _).
    by exists ws'.
  - split; [by apply Hev, evolves_step|by apply evolves_step].
  - split; [by apply Hev, evolves_step|by apply evolves_step].
  - split; [by apply Hev, evolves_step|by apply evolves_step].
  - split; [by apply Hev, evolves_step|by apply evolves_step].
  - split; [by apply Hev, evolves_step|by apply evolves_step].
  - split; [by apply Hev, evolves_step|by apply evolves_step].
  - split; [by apply Hev, evolves_step|by apply evolves_step].
Qed.

Lemma heartbeat_loop_users n k st : users (heartbeat_loop n k st) = users st.
Proof.
  revert k st. induction n as [|n IH]; intros k st; simpl; [done|].
  destruct (userSocket st !! k) as [r|]; [|apply IH]. rewrite IH.
  unfold heartbeat_visit. destruct (sockets st !! r); [|done].
  destruct (negb _); [done|]. destruct (negb _).
  - destruct (findIndex _ _); simpl; apply modify_users.
  - simpl. apply modify_users.
Qed.

Lemma connection_users url now st : users (connection url now st) = users st.
Proof.
  unfold connection. destruct (requestUserId url) as [id|]; [|done].
  destruct (truthy (Some id)); [|done].
  rewrite admit_connection_unfold. fold (accepted id st). cbn zeta.
  rewrite modify_users.
  cbn [users broadcastUserStatus updateUserLastLogin spawn with_tasks with_userSocket].
  unfold replace_existing. destruct (findIndex _ _) as [j|].
  - cbn [users splice with_userSocket].
    destruct (userSocket _ !! j) as [r|]; [|by unfold accepted; rewrite modify_users].
    destruct (sockets _ !! r); [rewrite terminate_users|];
      by unfold accepted; rewrite modify_users.
  - by unfold accepted; rewrite modify_users.
Qed.

(** X15.  The server never creates a document: after any event the [_id]s
    of the directory are those it had before, in order, with some left out.
    Socket events and timers leave the directory as it is; it changes only
    when an awaited directory call settles. *)
Theorem events_create_no_document (e : Event) (st : Server) :
  (_id <$> users (step e st)) `sublist_of` (_id <$> users st) ∧
  match e with
  | Settle _ _ _ => True
  | _ => users (step e st) = users st
  end.
Proof.
  destruct e as [url now|r|r|r rs| | |now|k ok throws]; simpl.
  - by rewrite connection_users.
  - assert (users (close_event r st) = users st) as ->; [|done].
    unfold close_event. destruct (_ ≫= onClose) as [id|].
    + unfold close_listener. destruct (findIndex _ _); simpl; apply modify_users.
    + apply modify_users.
  - assert (users (pong_event r st) = users st) as ->; [|done].
    unfold pong_event. destruct (sockets st !! r) as [o|]; [|done].
    destruct (onPong o); [apply modify_users|done].
  - by rewrite modify_users.
  - unfold heartbeat. by rewrite heartbeat_loop_users.
  - assert (users (staleness_sweep st) = users st) as ->; [|done].
    unfold staleness_sweep.
    destruct (sweep_loop_frame (length (userSocket st)) st) as (_ & _ & Hu & _).
    by destruct (_ <? _)%nat.
  - done.
  - split; [|done]. destruct (tasks st !! k) as [t|]; [|done].
    destruct t as [id date|online|cutoff|cutoff]; simpl.
    + unfold updateUserLastLogin_resume. destruct ok; [|done]. simpl.
      by destruct (findByIdAndUpdate_fields id date (users st)) as (-> & _).
    + unfold broadcastUserStatus_resume. destruct ok; [|done].
      by destruct (send_loop _ _ _) as [es []].
    + unfold deleteInactiveUsers_found. destruct ok; [|done].
      by destruct (_ <? _)%nat.
    + unfold deleteInactiveUsers_deleted. destruct ok; [|done]. simpl.
      apply fmap_sublist. clear. induction (users st) as [|u us IH]; [done|].
      simpl. destruct (negb _); [by constructor|by apply sublist_cons].
Qed.

(** ** Registration *)

Lemma findOne_email_Some mail us u :
  findOne_email mail us = Some u → u ∈ us ∧ email u = Text mail.
Proof.
  intros [Hin Heq]%List.find_some. split; [by apply list_elem_of_In|].
  by apply bool_decide_eq_true in Heq.
Qed.

Lemma findOne_email_None mail us :
  findOne_email mail us = None ↔ Text mail ∉ (email <$> us).
Proof.
  unfold findOne_email. induction us as [|u us IH]; csimpl.
  { split; [intros _; apply not_elem_of_nil|done]. }
  destruct (bool_decide_reflect (email u = Text mail)) as [->|Hne].
  - split; [done|]. intros H. destruct H. left.
  - rewrite IH, not_elem_of_cons. split; [by split|by intros [_ ?]].
Qed.

(** X16.  A fulfilled registration is a login when the directory holds a
    document with the [email] and a creation otherwise.  A login answers 200
    and changes [lastLogin] only: the documents, their [_id]s and [email]s
    stay.  A creation answers 201 and appends one document with the
    generated [_id].  Either way documents that had pairwise different
    [email]s still have, and registering the same [email] again is a login.
    When [findOne] or [save] is rejected the answer is 500 and the directory
    is unchanged. *)
Theorem register_logs_in_or_creates
    (name mail : string) (now : Z) (fresh : string) (us : list User) :
  let '(response, us') := register name mail now fresh true true us in
  (Text mail ∈ (email <$> us) →
     status response = 200 ∧ _id <$> us' = _id <$> us ∧ email <$> us' = email <$> us ∧
     username <$> us' = username <$> us) ∧
  (Text mail ∉ (email <$> us) →
     status response = 201 ∧ us' = us ++ [mkUser fresh (Text name) (Text mail) now]) ∧
  (NoDup (email <$> us) → NoDup (email <$> us')) ∧
  (∀ name' now' fresh',
     status (register name' mail now' fresh' true true us').1 = 200 ∧
     length (register name' mail now' fresh' true true us').2 = length us') ∧
  (∀ found saved, found && saved = false →
     status (register name mail now fresh found saved us).1 = 500 ∧
     (register name mail now fresh found saved us).2 = us).
Proof.
  assert (∀ found saved, found && saved = false →
     status (register name mail now fresh found saved us).1 = 500 ∧
     (register name mail now fresh found saved us).2 = us) as Hfail.
  { intros [] []; try done; intros _; unfold register; simpl;
      by destruct (findOne_email mail us). }
  assert (∀ l, Text mail ∈ (email <$> l) → ∀ name' now' fresh',
     status (register name' mail now' fresh' true true l).1 = 200 ∧
     length (register name' mail now' fresh' true true l).2 = length l) as Hagain.
  { intros l Hin name' now' fresh'. unfold register. simpl.
    destruct (findOne_email mail l) as [u|] eqn:E.
    - simpl. split; [done|].
      destruct (findByIdAndUpdate_fields (_id u) now' l) as (H1 & _).
      apply (f_equal length) in H1. by rewrite !length_fmap in H1.
    - by apply findOne_email_None in E. }
  destruct (register name mail now fresh true true us) as [response us'] eqn:Hreg.
  unfold register in Hreg. simpl in Hreg.
  destruct (findOne_email mail us) as [u|] eqn:E; injection Hreg as <- <-.
  - destruct (findOne_email_Some _ _ _ E) as [Hu Hmail].
    destruct (findByIdAndUpdate_fields (_id u) now us) as (H1 & H2 & H3).
    split_and!; [| | | |done].
    + intros _. simpl. by rewrite H1, H2, H3.
    + intros Hout. destruct Hout. rewrite <-Hmail. by apply list_elem_of_fmap_2.
    + by rewrite H3.
    + apply Hagain. rewrite H3, <-Hmail. by apply list_elem_of_fmap_2.
  - pose proof (proj1 (findOne_email_None _ _) E) as Hout.
    split_and!; [done|done| | |done].
    + intros Hnd. rewrite fmap_app. apply NoDup_app.
      split_and!; [done| |apply NoDup_singleton].
      intros x Hx ->%list_elem_of_singleton. done.
    + apply Hagain. rewrite fmap_app. apply elem_of_app. right. constructor.
Qed.

(** X17.  With [_id] as a key, a document registered at [now] (created, or
    logged in) outlives a reconciler run at [later] as long as [later] is at
    most two minutes after [now]; a run after that, with no touch in
    between, leaves no document with that [lastLogin], so a user who
    registers and does not connect in time is deleted. *)
Theorem registered_user_expires
    (name mail : string) (now later : Z) (fresh : string) (st : Server) :
  NoDup (_id <$> users st) →
  let st1 := (register_request name mail now fresh true true st).2 in
  let st2 := reconciler_run later st1 in
  (∃ u, u ∈ users st1 ∧ email u = Text mail ∧ lastLogin u = now) ∧
  ((later - 2 * 60 * 1000 ≤ now)%Z →
     ∃ u, u ∈ users st2 ∧ email u = Text mail ∧ lastLogin u = now) ∧
  ((now < later - 2 * 60 * 1000)%Z →
     ∀ u, u ∈ users st2 → lastLogin u ≠ now) ∧
  userSocket st2 = userSocket st.
Proof.
  intros Hnd st1 st2.
  assert (userSocket st1 = userSocket st ∧
          ∃ u, u ∈ users st1 ∧ email u = Text mail ∧ lastLogin u = now) as [Hreg Hin].
  { subst st1. unfold register_request, register. simpl.
    destruct (findOne_email mail (users st)) as [u|] eqn:E; simpl.
    - split; [done|]. destruct (findOne_email_Some _ _ _ E) as [Hu Hmail].
      exists (mkUser (_id u) (username u) (email u) now).
      split; [by apply findByIdAndUpdate_touched|done].
    - split; [done|]. exists (mkUser fresh (Text name) (Text mail) now).
      split; [|done]. apply elem_of_app. right. constructor. }
  assert (∀ u, u ∈ users st2 ↔ u ∈ users st1 ∧ (later - 2 * 60 * 1000 ≤ lastLogin u)%Z)
    as Hkept.
  { intros u. subst st2.
    destruct (List.filter (inactive (later - 2 * 60 * 1000)) (users st1))
      as [|u0 us0] eqn:E.
    - destruct (reconciler_run_nothing later st1 E) as (-> & _).
      rewrite <-(filter_negb_id _ _ E) at 1. apply elem_of_filter_active.
    - destruct (reconciler_run_deletes later st1) as (-> & _); [by rewrite E|].
      apply elem_of_filter_active. }
  assert (userSocket st2 = userSocket st1) as Hreg2.
  { subst st2.
    destruct (List.filter (inactive (later - 2 * 60 * 1000)) (users st1))
      as [|u0 us0] eqn:E.
    - by destruct (reconciler_run_nothing later st1 E) as (_ & _ & -> & _).
    - destruct (reconciler_run_deletes later st1) as (_ & _ & -> & _);
        [by rewrite E|done]. }
  split_and!; [done| | |congruence].
  - intros Hle. destruct Hin as (u & Hu & Hm & Hl). exists u.
    split_and!; [|done..]. apply Hkept. split; [done|lia].
  - intros Hlt u [_ Hu]%Hkept. lia.
Qed.

Lemma registered_user_expires_witness :
  let st := run [Connection (Some "/?userId=u1") 0]
                (initial [mkUser "u1" (Text "ann") (Text "ann@example.org") 0]) in
  let st1 := (register_request "bob" "bob@example.org" 1000 "u2" true true st).2 in
  let st2 := reconciler_run 121000 st1 in
  (∃ u, u ∈ users st1 ∧ email u = Text "bob@example.org" ∧ lastLogin u = 1000%Z) ∧
  ((121000 - 2 * 60 * 1000 ≤ 1000)%Z →
     ∃ u, u ∈ users st2 ∧ email u = Text "bob@example.org" ∧ lastLogin u = 1000%Z) ∧
  ((1000 < 121000 - 2 * 60 * 1000)%Z →
     ∀ u, u ∈ users st2 → lastLogin u ≠ 1000%Z) ∧
  userSocket st2 = userSocket st.
Proof.
  apply (registered_user_expires "bob" "bob@example.org" 1000 121000 "u2"
           (run [Connection (Some "/?userId=u1") 0]
              (initial [mkUser "u1" (Text "ann") (Text "ann@example.org") 0]))).
  apply (bool_decide_unpack _). vm_compute. exact I.
Defined.

(** ** An answered probe *)

(** X18.  In every state the server reaches, the ["pong"] event of a
    registered socket sets its flag and leaves the registry as it is; the
    heartbeat sweep that follows does not evict that socket: it is still
    registered after the sweep and [terminate] is not called on it. *)
Theorem pong_keeps_entry (st : Server) (r : nat) :
  reachable st → r ∈ userSocket st →
  let st1 := step (PongEvent r) st in
  let st2 := step HeartbeatTick st1 in
  isAlive <$> sockets st1 !! r = Some (Some true) ∧
  userSocket st1 = userSocket st ∧
  r ∈ userSocket st2 ∧ (Terminate r ∉ new_effects st1 st2).
Proof.
  intros Hreach Hin st1 st2.
  pose proof (registry_admitted_reachable _ Hreach) as Ha.
  unfold registry_admitted in Ha. rewrite Forall_forall in Ha.
  destruct (Ha r Hin) as (ws & Hws & id & _ & _ & _ & Hp & _).
  assert (st1 = modify r (set_isAlive true) st) as Hst1.
  { subst st1. simpl. unfold pong_event. by rewrite Hws, Hp. }
  assert (sockets st1 !! r = Some (set_isAlive true ws)) as Hws1.
  { by rewrite Hst1, lookup_modify_eq, Hws. }
  assert (userSocket st1 = userSocket st) as Hreg.
  { rewrite Hst1. apply modify_userSocket. }
  assert (unique_userIds st1) as Hu1.
  { apply (Inv_step (PongEvent r)), Inv_reachable, Hreach. }
  split_and!; [by rewrite Hws1|done|..].
  all: rewrite <-Hreg in Hin; apply list_elem_of_lookup in Hin as [i Hi].
  all: destruct (heartbeat_loop_not_due (length (userSocket st1)) 0 st1 i r)
         as (Hin' & es & He & Ht);
         [done|done|right; unfold due; rewrite Hws1; simpl; apply andb_false_r|].
  - done.
  - subst st2. simpl. unfold heartbeat. by rewrite (new_effects_app _ _ _ He).
Qed.

Lemma pong_keeps_entry_witness :
  let st := run [Connection (Some "/?userId=u1") 0; HeartbeatTick] (initial []) in
  let st1 := step (PongEvent 0) st in
  let st2 := step HeartbeatTick st1 in
  isAlive <$> sockets st1 !! 0%nat = Some (Some true) ∧
  userSocket st1 = userSocket st ∧
  0 ∈ userSocket st2 ∧ (Terminate 0 ∉ new_effects st1 st2).
Proof.
  apply (pong_keeps_entry
           (run [Connection (Some "/?userId=u1") 0; HeartbeatTick] (initial [])) 0).
  - exists [], [Connection (Some "/?userId=u1") 0; HeartbeatTick]. reflexivity.
  - vm_compute. constructor.
Defined.

(** ** Who takes out an entry that is not open *)








